(** * truffle-compile-smartpy: a shallow embedding of [src/index.ts]

    The adapter drives the SmartPy-Basic compiler through docker, one source
    file after the other, reads the artifacts the compiler left in the build
    directory and folds the per-file records into one result object.

    The embedding follows the source function by function.  What the source
    takes from Node and from npm packages ([path], [colors], [JSON],
    [minimatch], [child_process], the truffle profiler) is a field of the
    classes [Host] and [Oracle]; the file system is an explicit state that
    the [fs] calls of the source read and change. *)

From Stdlib Require Import ZArith Ascii.
From Stdlib Require String.
From stdpp Require Import base option list strings gmap sorting.

Local Open Scope Z_scope.

(** ** Strings as JavaScript uses them *)

Module Str.

(** [String.prototype.startsWith]. *)
Fixpoint startsWith (needle hay : string) : bool :=
  match needle, hay with
  | EmptyString, _ => true
  | String a n, String b h => if Ascii.eqb a b then startsWith n h else false
  | String _ _, EmptyString => false
  end.

(** [String.prototype.includes]: the needle occurs at some offset. *)
Fixpoint includes (needle hay : string) : bool :=
  startsWith needle hay ||
  match hay with
  | EmptyString => false
  | String _ h => includes needle h
  end.

(** The backslash, code unit 92. *)
Definition backslash : ascii := ascii_of_nat 92.

(** [s.replace(re, "/")] for the global pattern of the source that matches
    a single backslash: every backslash becomes a forward slash. *)
Fixpoint replace_backslashes (s : string) : string :=
  match s with
  | EmptyString => EmptyString
  | String c r =>
      String (if Ascii.eqb c backslash then "/"%char else c)
             (replace_backslashes r)
  end.

(** The strict part of the order [Array.prototype.sort] uses by default
    (code units, here bytes). *)
Definition ltb (a b : string) : bool :=
  match String.compare a b with Lt => true | _ => false end.

(** The line feed the template literals of the source write as an
    escape. *)
Definition newline : string := String (ascii_of_nat 10) EmptyString.

(** JavaScript truthiness of a string: only the empty string is falsy. *)
Definition truthy (s : string) : bool :=
  match s with EmptyString => false | String _ _ => true end.

End Str.

(** [Array.prototype.sort()] without comparator, on an array of strings. *)
Fixpoint sort_insert (x : string) (l : list string) : list string :=
  match l with
  | [] => [x]
  | y :: r => if Str.ltb y x then y :: sort_insert x r else x :: y :: r
  end.

Definition sort (l : list string) : list string :=
  foldr sort_insert [] l.

(** ** What the source imports *)

(** The pure library functions of [path], [colors], [JSON] and [minimatch].
    [JSON_parse] is partial: [None] stands for the [SyntaxError] it throws. *)
Class Host := {
  path_normalize : string → string;
  path_extname : string → string;
  path_basename : string → string → string;
  path_isAbsolute : string → bool;
  path_relative : string → string → string;
  path_join : string → string → string;
  path_sep : string;
  colors_red : string → string;
  JSON_value : Type;
  JSON_parse : string → option JSON_value;
  JSON_stringify : JSON_value → string;
  minimatch : string → string → bool
}.

(** ** The file system *)

(** Regular files by full path, in directory order, and the directories that
    exist.  The build directory is taken to hold regular files only. *)
Record FS := {
  files : list (string * string);
  dirs : list string
}.

Fixpoint assoc (p : string) (l : list (string * string)) : option string :=
  match l with
  | [] => None
  | e :: r => if decide (fst e = p) then Some (snd e) else assoc p r
  end.

Definition fs_read (f : FS) (p : string) : option string :=
  assoc p (files f).

Definition fs_exists (f : FS) (p : string) : bool :=
  bool_decide (p ∈ dirs f) || bool_decide (p ∈ (files f).*1).

Definition fs_remove (f : FS) (p : string) : FS :=
  {| files := filter (λ e, fst e ≠ p) (files f); dirs := dirs f |}.

(** The path the source builds for an entry of a directory:
    [`${dir}/${file}`]. *)
Definition entry_path (dir file : string) : string :=
  dir +:+ "/" +:+ file.

(** [strip_prefix a s] is [Some b] when [s = a +:+ b]. *)
Fixpoint strip_prefix (a s : string) : option string :=
  match a, s with
  | EmptyString, _ => Some s
  | String x a', String y s' =>
      if Ascii.eqb x y then strip_prefix a' s' else None
  | String _ _, EmptyString => None
  end.

(** The name under which path [p] is listed in directory [dir], if it is a
    direct child of it. *)
Definition child_of (dir p : string) : option string :=
  match strip_prefix (dir +:+ "/") p with
  | Some n => if Str.includes "/" n then None else Some n
  | None => None
  end.

Definition fs_list (f : FS) (dir : string) : list string :=
  omap (λ e, child_of dir (fst e)) (files f).

(** ** The world the adapter runs in *)

(** What the adapter does to its surroundings, in the order it does it. *)
Inductive Event :=
  | Exec (cmd : string)
  | Spawn (prog : string) (args : list string)
  | ExistsSync (p : string)
  | Mkdirp (d : string)
  | ReadFile (p : string)
  | ReadDir (d : string)
  | Unlink (p : string)
  | Log (msg : string).

Global Instance Event_eq_dec : EqDecision Event.
Proof. solve_decision. Defined.

(** [pending] holds the directories whose creation was requested through
    [promisifiedMkdirp] and whose promise nobody waits for: the creation runs
    on later turns of the event loop. *)
Record World := {
  fs : FS;
  pending : list string;
  trace : list Event
}.

Definition emit (e : Event) (w : World) : World :=
  {| fs := fs w; pending := pending w; trace := trace w ++ [e] |}.

(** Exceptions of the [fs] calls and of [JSON.parse]. *)
Inductive Exn :=
  | ENOENT (p : string)
  | SyntaxError (text : string).

(** How a child process ended: its exit code ([None] when a signal killed it,
    the [null] of the [close] event), the chunks its stderr delivered, and
    the file system it leaves behind. *)
Record ProcOutcome := {
  proc_code : option Z;
  proc_stderr : list string;
  proc_fs : FS
}.

(** The fields of [TruffleConfig] the adapter reads.  [quiet] and [strict]
    may be left undefined; [cli_args] is [options._]. *)
Record TruffleConfig := {
  contracts_directory : string;
  contracts_build_directory : string;
  working_directory : string;
  paths : list string;
  quiet : option bool;
  strict : option bool;
  cli_args : list string
}.

Definition set_paths (options : TruffleConfig) (l : list string)
  : TruffleConfig :=
  {| contracts_directory := contracts_directory options;
     contracts_build_directory := contracts_build_directory options;
     working_directory := working_directory options;
     paths := l;
     quiet := quiet options;
     strict := strict options;
     cli_args := cli_args options |}.

(** [options.with({ contracts_directory: d })]. *)
Definition with_contracts_directory (options : TruffleConfig) (d : string)
  : TruffleConfig :=
  {| contracts_directory := d;
     contracts_build_directory := contracts_build_directory options;
     working_directory := working_directory options;
     paths := paths options;
     quiet := quiet options;
     strict := strict options;
     cli_args := cli_args options |}.

(** The surroundings that answer the adapter: child processes, the profiler
    and the source discovery.  [spawn_outcome prog args f pend] is how the
    process ends when it is started on file system [f] while the directory
    creations [pend] are still under way.  [exec_outcome] is the stderr of a
    failed command and [None] for a command that succeeded.  The profiler and
    the discovery answer with an error or with a list of paths. *)
Class Oracle := {
  spawn_outcome : string → list string → FS → list string → ProcOutcome;
  exec_outcome : string → FS → option string;
  Profiler_updated : TruffleConfig → FS → string + list string;
  find_contracts : string → FS → string + list string
}.

(** ** A state and exception monad for the synchronous calls *)

Definition M (A : Type) : Type := World → (Exn + A) * World.

Definition ret {A} (a : A) : M A := λ w, (inr a, w).
Definition throw {A} (x : Exn) : M A := λ w, (inl x, w).
Definition bind {A B} (c : M A) (k : A → M B) : M B :=
  λ w, match c w with
       | (inr a, w') => k a w'
       | (inl x, w') => (inl x, w')
       end.

Notation "'do' x <- c ; k" := (bind c (λ x, k))
  (at level 10, x name, c at level 100, k at level 200).
Notation "'do' ' p <- c ; k" := (bind c (λ x, let 'p := x in k))
  (at level 10, p pattern, c at level 100, k at level 200).
Notation "'run' c ; k" := (bind c (λ _, k))
  (at level 10, c at level 100, k at level 200).

(** [fs.existsSync]. *)
Definition existsSync (p : string) : M bool :=
  λ w, (inr (fs_exists (fs w) p), emit (ExistsSync p) w).

(** [fs.readFileSync], decoded to a string. *)
Definition readFileSync (p : string) : M string :=
  λ w, match fs_read (fs w) p with
       | Some c => (inr c, emit (ReadFile p) w)
       | None => (inl (ENOENT p), emit (ReadFile p) w)
       end.

(** [fs.readdirSync]. *)
Definition readdirSync (d : string) : M (list string) :=
  λ w, if bool_decide (d ∈ dirs (fs w))
       then (inr (fs_list (fs w) d), emit (ReadDir d) w)
       else (inl (ENOENT d), emit (ReadDir d) w).

(** [fs.unlinkSync]. *)
Definition unlinkSync (p : string) : M unit :=
  λ w, match fs_read (fs w) p with
       | Some _ =>
           (inr (), {| fs := fs_remove (fs w) p; pending := pending w;
                       trace := trace w ++ [Unlink p] |})
       | None => (inl (ENOENT p), emit (Unlink p) w)
       end.

(** [promisifiedMkdirp(d)] as the source calls it: the request is made and
    the promise dropped. *)
Definition promisifiedMkdirp (d : string) : M unit :=
  λ w, (inr (), {| fs := fs w; pending := pending w ++ [d];
                   trace := trace w ++ [Mkdirp d] |}).

(** [logger.log]. *)
Definition log (msg : string) : M unit :=
  λ w, (inr (), emit (Log msg) w).

(** [Array.prototype.forEach] with the variables the callback assigns. *)
Fixpoint forEach {A S} (f : A → S → M S) (l : list A) (s : S) : M S :=
  match l with
  | [] => ret s
  | a :: r => do s' <- f a s; forEach f r s'
  end.

(** ** The program *)

Module CompilerId.
Record t := { name : string; version : string }.
End CompilerId.

Definition compiler : CompilerId.t :=
  {| CompilerId.name := "smartpy";
     CompilerId.version := "trufflesuite/smartpy-basic:0.0.2" |}.

Definition SMARTPY_PATTERN : string := "**/*.py".

(** The [contractDefinition] object of [compileAll]. *)
Module Contract.
Record t := {
  contractName : string;
  abi : list string;
  initialStorage : option string;
  sourcePath : string;
  source : string;
  michelson : option string;
  compiler : CompilerId.t
}.
End Contract.

(** The [result] object.  It starts as the literal [{}] and is only ever
    changed by [result[key] = contract].  Such an assignment creates or
    overwrites the own property [key], except for the key [__proto__]: that
    one is the accessor of [Object.prototype], and assigning an object to it
    replaces the prototype of [result] and creates no own property. *)
Record ResultObject := {
  own : gmap string Contract.t;
  prototype : option Contract.t
}.

(** The literal [{}]. *)
Global Instance ResultObject_empty : Empty ResultObject :=
  {| own := ∅; prototype := None |}.

(** Own properties: [m !! key] is the own property [key] of [m], and
    [size m] is [Object.keys(m).length]. *)
Global Instance ResultObject_lookup : Lookup string Contract.t ResultObject :=
  λ key m, own m !! key.

Global Instance ResultObject_size : Size ResultObject :=
  λ m, size (own m).

(** [result[key] = contract]. *)
Definition assign (result : ResultObject) (key : string)
    (contract : Contract.t) : ResultObject :=
  if decide (key = "__proto__")
  then {| own := own result; prototype := Some contract |}
  else {| own := <[key := contract]> (own result);
          prototype := prototype result |}.

(** What the caller gets: [callback(error)], or
    [callback(null, result, paths, compiler)]; the two early returns of the
    source call [callback(null, {}, [])], without a compiler.  A run that
    ends in an exception of the monad never calls the callback. *)
Inductive Outcome :=
  | Failure (error : string)
  | Success (result : ResultObject) (contractPaths : list string)
            (_compiler : option CompilerId.t).

Section Program.
Context {host : Host} {oracle : Oracle}.

(** [child_process.spawn] together with the wait for its [close] event. *)
Definition spawn (prog : string) (args : list string) : M ProcOutcome :=
  λ w, let o := spawn_outcome prog args (fs w) (pending w) in
       (inr o, {| fs := proc_fs o; pending := [];
                  trace := trace w ++ [Spawn prog args] |}).

(** [child_process.exec] together with its callback. *)
Definition exec (cmd : string) : M (option string) :=
  λ w, (inr (exec_outcome cmd (fs w)), emit (Exec cmd) w).

(** [compile.display], called on an array: unless quiet, the array is
    sorted in place and one line is logged per path.  The value is the
    array as the call leaves it, which is the [options.paths] the caller
    goes on with. *)
Definition display (paths : list string) (options : TruffleConfig)
  : M (list string) :=
  if negb (bool_decide (quiet options = Some true)) then
    let sorted := sort paths in
    run forEach (λ contract (_ : unit),
          let contract :=
            if path_isAbsolute contract
            then "." +:+ path_sep +:+
                 path_relative (working_directory options) contract
            else contract in
          log ("> Compiling " +:+ contract)) sorted ();
    ret sorted
  else ret paths.

(** [checkSmartPy]: the message passed to the callback, if any. *)
Definition checkSmartPy : M (option string) :=
  do err <- exec "docker run --rm -i trufflesuite/smartpy-basic:0.0.1 --help";
  match err with
  | Some stderr =>
      ret (Some (colors_red "Error executing SmartPy-Basic:" +:+
                 Str.newline +:+ stderr))
  | None => ret None
  end.

(** The logical name [execSmartPy] derives from a source path. *)
Definition contractName_of (sourcePath : string) : string :=
  let extension := path_extname sourcePath in
  let basename := path_basename sourcePath extension in
  basename.

(** [`${entryPoint ? entryPoint : contractName}()`]. *)
Definition entry_expression (entryPoint : option string)
    (contractName : string) : string :=
  match entryPoint with
  | Some e => if Str.truthy e then e else contractName
  | None => contractName
  end +:+ "()".

(** The argument array [execSmartPy] hands to [spawn]. *)
Definition docker_args (sourcePath : string) (entryPoint : option string)
    (options : TruffleConfig) : list string :=
  let currentProjectWorkingDirectory :=
    path_normalize (working_directory options) in
  let fullInternalSourcePath :=
    Str.replace_backslashes (path_normalize sourcePath) in
  [ "run";
    "-v";
    currentProjectWorkingDirectory +:+ ":" +:+ currentProjectWorkingDirectory;
    "-w";
    currentProjectWorkingDirectory;
    "--rm";
    "-i";
    "trufflesuite/smartpy-basic:0.0.1";
    "compile";
    fullInternalSourcePath;
    entry_expression entryPoint (contractName_of sourcePath);
    contracts_build_directory options ].

(** [code != 0] on the code of the [close] event. *)
Definition code_nonzero (code : option Z) : bool :=
  match code with
  | Some 0 => false
  | _ => true
  end.

(** The first statement of [execSmartPy] that touches the file system:
    the build directory is asked for when [existsSync] does not see it. *)
Definition ensure_build_directory (options : TruffleConfig) : M unit :=
  do present <- existsSync (contracts_build_directory options);
  if present then ret ()
  else promisifiedMkdirp (contracts_build_directory options).

(** [execSmartPy]: [inl] is the value the promise is rejected with, [inr]
    the value it is resolved with.  The [resolve] the source still calls
    after [reject] has no effect on a settled promise. *)
Definition execSmartPy (sourcePath : string) (entryPoint : option string)
    (options : TruffleConfig) : M (string + string) :=
  let contractName := contractName_of sourcePath in
  run ensure_build_directory options;
  do docker <- spawn "docker" (docker_args sourcePath entryPoint options);
  let stderr := foldl String.append "" (proc_stderr docker) in
  if code_nonzero (proc_code docker) || negb (String.eqb stderr "") then
    ret (inl (stderr +:+ Str.newline +:+
              colors_red ("Compilation of " +:+ sourcePath +:+
                          " failed. See above.")))
  else ret (inr contractName).

(** The variables [michelson] and [initialStorage] of one iteration. *)
Definition Captured : Type := option string * option string.

(** The callback of [currentBuildDirectoryContents.forEach]. *)
Definition reconcile_entry (options : TruffleConfig) (file : string)
    (vars : Captured) : M Captured :=
  let currentFilePath :=
    entry_path (contracts_build_directory options) file in
  if Str.includes ".py" file then
    run unlinkSync currentFilePath; ret vars
  else if Str.includes ".tz.json" file then
    do michelsonAsRawData <- readFileSync currentFilePath;
    match JSON_parse michelsonAsRawData with
    | None => throw (SyntaxError michelsonAsRawData)
    | Some michelsonJson =>
        run unlinkSync currentFilePath;
        ret (Some (JSON_stringify michelsonJson), snd vars)
    end
  else if Str.includes ".tz" file then
    do vars' <-
      (if String.eqb file "contractStorage.tz" then
         do initialStorageRawData <- readFileSync currentFilePath;
         ret (fst vars, Some initialStorageRawData)
       else ret vars);
    run unlinkSync currentFilePath; ret vars'
  else ret vars.

(** The part of the loop body after a successful [execSmartPy]. *)
Definition collect (sourcePath contractName : string)
    (options : TruffleConfig) : M Contract.t :=
  do sourceContents <- readFileSync sourcePath;
  do currentBuildDirectoryContents <-
    readdirSync (contracts_build_directory options);
  do vars <- forEach (reconcile_entry options)
               currentBuildDirectoryContents (None, None);
  ret {| Contract.contractName := contractName;
         Contract.abi := [];
         Contract.initialStorage := snd vars;
         Contract.sourcePath := sourcePath;
         Contract.source := sourceContents;
         Contract.michelson := fst vars;
         Contract.compiler := compiler |}.

(** The [for ... of options.paths] loop of [compileAll]; [inl] is the
    error of the first rejected invocation. *)
Fixpoint compile_loop (todo : list string) (entryPoint : option string)
    (options : TruffleConfig) (contracts : list Contract.t)
  : M (string + list Contract.t) :=
  match todo with
  | [] => ret (inr contracts)
  | sourcePath :: rest =>
      do r <- execSmartPy sourcePath entryPoint options;
      match r with
      | inl error => ret (inl error)
      | inr contractName =>
          do contractDefinition <- collect sourcePath contractName options;
          compile_loop rest entryPoint options
            (contracts ++ [contractDefinition])
      end
  end.

(** The [contracts.reduce] of [compileAll]. *)
Definition aggregate (contracts : list Contract.t) : ResultObject :=
  foldl (λ result contract,
           assign result (Contract.contractName contract) contract)
        ∅ contracts.

(** [options._[0] || undefined]. *)
Definition entryPoint_of (options : TruffleConfig) : option string :=
  match cli_args options with
  | e :: _ => if Str.truthy e then Some e else None
  | [] => None
  end.

(** [compileAll], called with a callback. *)
Definition compileAll (options : TruffleConfig) : M Outcome :=
  let entryPoint := entryPoint_of options in
  do paths' <- display (paths options) options;
  let options := set_paths options paths' in
  do r <- compile_loop (paths options) entryPoint options [];
  match r with
  | inl error => ret (Failure error)
  | inr contracts =>
      ret (Success (aggregate contracts) (paths options) (Some compiler))
  end.

(** [compileSmartPy], which is also [compile.with_dependencies]. *)
Definition compileSmartPy (options : TruffleConfig) : M Outcome :=
  let options :=
    set_paths options
      (filter (λ path, minimatch path SMARTPY_PATTERN = true)
              (paths options)) in
  if bool_decide (length (paths options) = 0%nat) then ret (Success ∅ [] None)
  else
    do err <- checkSmartPy;
    match err with
    | Some e => ret (Failure e)
    | None => compileAll options
    end.

(** [compile.all]. *)
Definition compile_all (options : TruffleConfig) : M Outcome :=
  λ w, match find_contracts (contracts_directory options) (fs w) with
       | inl err => (inr (Failure err), w)
       | inr files => compileSmartPy (set_paths options files) w
       end.

(** [compile.necessary]. *)
Definition compile_necessary (options : TruffleConfig) : M Outcome :=
  λ w, match Profiler_updated options (fs w) with
       | inl err => (inr (Failure err), w)
       | inr updated =>
           if bool_decide (length updated = 0%nat) &&
              negb (bool_decide (quiet options = Some true))
           then (inr (Success ∅ [] None), w)
           else compileSmartPy (set_paths options updated) w
       end.

(** [updateContractsDirectory]. *)
Definition updateContractsDirectory (options : TruffleConfig)
  : TruffleConfig :=
  with_contracts_directory options
    (path_join (contracts_directory options) SMARTPY_PATTERN).

(** [compileSmartPy.all] and [compileSmartPy.necessary]. *)
Definition compileSmartPy_all (options : TruffleConfig) : M Outcome :=
  compile_all (updateContractsDirectory options).

Definition compileSmartPy_necessary (options : TruffleConfig) : M Outcome :=
  compile_necessary (updateContractsDirectory options).

End Program.

(** ** The artifact classes of the specification *)

Inductive ArtifactClass :=
  | SourceEcho
  | CompiledJson
  | RawOutput
  | Unrecognized.

Global Instance ArtifactClass_eq_dec : EqDecision ArtifactClass.
Proof. solve_decision. Defined.

(** The classification rule as the specification words it: source echo
    first, then the JSON-encoded program, then raw program output, and
    anything else is not recognized. *)
Definition classify (file : string) : ArtifactClass :=
  if Str.includes ".py" file then SourceEcho
  else if Str.includes ".tz.json" file then CompiledJson
  else if Str.includes ".tz" file then RawOutput
  else Unrecognized.

(** The paths of the entries of [names] that fall in a recognized class. *)
Definition consumed (dir : string) (names : list string) : list string :=
  entry_path dir <$> filter (λ n, classify n ≠ Unrecognized) names.

Section ReconcilerDefinitions.
Context {host : Host}.

(** [JSON.stringify(JSON.parse(text))]. *)
Definition canonical (text : string) : option string :=
  JSON_stringify <$> JSON_parse text.

(** What an entry with content [c] leaves in the two variables. *)
Definition capture (file c : string) (vars : Captured) : Captured :=
  match classify file with
  | CompiledJson => (canonical c, snd vars)
  | RawOutput =>
      if String.eqb file "contractStorage.tz" then (fst vars, Some c)
      else vars
  | _ => vars
  end.

(** What a directory listing leaves in the two variables, read off the
    file system the listing was taken from. *)
Definition captured (f : FS) (dir : string) (names : list string)
    (vars : Captured) : Captured :=
  foldl (λ v n, match fs_read f (entry_path dir n) with
                | Some c => capture n c v
                | None => v
                end) vars names.

End ReconcilerDefinitions.

(** ** What a computation adds to the trace and leaves on the file system *)

(** Every event the computation adds to the trace satisfies [P]. *)
Definition emits {A} (P : Event → Prop) (c : M A) : Prop :=
  ∀ w r w', c w = (r, w') →
    ∃ evs, trace w' = trace w ++ evs ∧ Forall P evs.

(** The computation leaves the file at path [q] where it is. *)
Definition keeps {A} (q : string) (c : M A) : Prop :=
  ∀ w r w', c w = (r, w') →
    (∀ d, (q, d) ∈ files (fs w) → (q, d) ∈ files (fs w')) ∧
    fs_read (fs w') q = fs_read (fs w) q.

(** ** One invocation of the compiler *)

Definition is_spawn (e : Event) : Prop :=
  match e with
  | Spawn _ _ => True
  | _ => False
  end.

Global Instance is_spawn_dec e : Decision (is_spawn e).
Proof. destruct e; simpl; apply _. Defined.

(** The order in which [compileAll] goes through the paths: [display] has
    sorted the array in place unless the request is quiet. *)
Definition compile_order (options : TruffleConfig) : list string :=
  if negb (bool_decide (quiet options = Some true)) then sort (paths options)
  else paths options.

(** A process event runs the image tagged 0.0.1: the preflight command
    line, or a [docker] spawn whose eighth token is the image. *)
Definition runs_image_001 (e : Event) : Prop :=
  match e with
  | Exec cmd =>
      cmd = "docker run --rm -i trufflesuite/smartpy-basic:0.0.1 --help"
  | Spawn prog args =>
      prog = "docker" ∧
      args !! 7%nat = Some "trufflesuite/smartpy-basic:0.0.1"
  | _ => True
  end.

Section InvocationDefinitions.
Context {host : Host} {oracle : Oracle}.

(** The directory creations under way when the process is started. *)
Definition launch_pending (options : TruffleConfig) (w : World)
  : list string :=
  if fs_exists (fs w) (contracts_build_directory options) then pending w
  else pending w ++ [contracts_build_directory options].

(** How the process [execSmartPy] starts in world [w] ends. *)
Definition invocation (sourcePath : string) (entryPoint : option string)
    (options : TruffleConfig) (w : World) : ProcOutcome :=
  spawn_outcome "docker" (docker_args sourcePath entryPoint options)
    (fs w) (launch_pending options w).

(** The stderr chunks as the [data] handler has accumulated them. *)
Definition diagnostics (o : ProcOutcome) : string :=
  foldl String.append "" (proc_stderr o).

(** The value [execSmartPy] rejects with. *)
Definition failure_message (sourcePath stderr : string) : string :=
  stderr +:+ Str.newline +:+
  colors_red ("Compilation of " +:+ sourcePath +:+ " failed. See above.").

(** What [execSmartPy] adds to the trace. *)
Definition launch_events (sourcePath : string) (entryPoint : option string)
    (options : TruffleConfig) (w : World) : list Event :=
  ExistsSync (contracts_build_directory options) ::
  (if fs_exists (fs w) (contracts_build_directory options) then []
   else [Mkdirp (contracts_build_directory options)]) ++
  [Spawn "docker" (docker_args sourcePath entryPoint options)].

End InvocationDefinitions.

(** ** Kinds of events *)


Definition is_exec (e : Event) : Prop :=
  match e with
  | Exec _ => True
  | _ => False
  end.

(** [P] lets through every event [compileAll] can add to the trace when the
    build directory is [dir]. *)
Definition admits (P : Event → Prop) (dir : string) : Prop :=
  (∀ p, P (ReadFile p)) ∧
  (∀ d, P (ReadDir d)) ∧
  (∀ d, P (ExistsSync d)) ∧
  (∀ d, P (Mkdirp d)) ∧
  (∀ m, P (Log m)) ∧
  (∀ a, P (Spawn "docker" a)) ∧
  (∀ n, classify n ≠ Unrecognized → P (Unlink (entry_path dir n))).

Section DisplayDefinitions.
Context {host : Host}.

(** The line [compile.display] logs for one path. *)
Definition compiling_line (options : TruffleConfig) (contract : string)
  : string :=
  "> Compiling " +:+
  (if path_isAbsolute contract
   then "." +:+ path_sep +:+
        path_relative (working_directory options) contract
   else contract).

End DisplayDefinitions.

(** ** A concrete host and scripted surroundings, for the examples *)

Module Demo.

Fixpoint split_slash (cur : string) (s : string) : list string :=
  match s with
  | EmptyString => [String.rev cur]
  | String c r =>
      if Ascii.eqb c "/"%char then String.rev cur :: split_slash "" r
      else split_slash (String c cur) r
  end.

Definition join_slash (l : list string) : string :=
  match l with
  | [] => ""
  | x :: r => foldl (λ acc y, acc +:+ "/" +:+ y) x r
  end.

(** Segments of a normalized path, most recent first. *)
Fixpoint resolve (absolute : bool) (stack : list string)
    (segs : list string) : list string :=
  match segs with
  | [] => stack
  | seg :: r =>
      if String.eqb seg "" || String.eqb seg "." then
        resolve absolute stack r
      else if String.eqb seg ".." then
        match stack with
        | top :: below =>
            if String.eqb top ".." then resolve absolute (seg :: stack) r
            else resolve absolute below r
        | [] =>
            if absolute then resolve absolute [] r
            else resolve absolute [seg] r
        end
      else resolve absolute (seg :: stack) r
  end.

(** [path.posix.normalize], without the trailing separator case. *)
Definition normalize (p : string) : string :=
  let absolute := Str.startsWith "/" p in
  let body := join_slash (reverse (resolve absolute [] (split_slash "" p))) in
  if absolute then "/" +:+ body
  else if String.eqb body "" then "." else body.

Definition last_segment (p : string) : string :=
  default "" (last (filter (λ s, s ≠ "") (split_slash "" p))).

(** Offset of the last dot of [s], counted from the end. *)
Fixpoint ext_rev (rev_s : string) (acc : string) : option string :=
  match rev_s with
  | EmptyString => None
  | String c r =>
      if Ascii.eqb c "."%char then
        match r with
        | EmptyString => None
        | _ => Some (String c acc)
        end
      else ext_rev r (String c acc)
  end.

(** [path.posix.extname]. *)
Definition extname (p : string) : string :=
  default "" (ext_rev (String.rev (last_segment p)) "").

(** [path.posix.basename] with a suffix to drop. *)
Definition basename (p ext : string) : string :=
  let b := last_segment p in
  let n := (String.length b - String.length ext)%nat in
  if negb (String.eqb ext "") && negb (String.eqb b ext) &&
     String.eqb (String.substring n (String.length ext) b) ext
  then String.substring 0 n b
  else b.

Definition esc : string := String (ascii_of_nat 27) EmptyString.

(** [colors.red] with colours enabled. *)
Definition red (s : string) : string :=
  esc +:+ "[31m" +:+ s +:+ esc +:+ "[39m".

(** A stand-in for [JSON.stringify(JSON.parse(text))] on texts that hold
    no string literal with blanks: the blanks go. *)
Fixpoint squeeze (s : string) : string :=
  match s with
  | EmptyString => EmptyString
  | String c r => if Ascii.is_space c then squeeze r else String c (squeeze r)
  end.

Definition parse (s : string) : option string :=
  match squeeze s with
  | EmptyString => None
  | t => Some t
  end.

(** A stand-in for [minimatch(path, "**/*.py")]. *)
Definition matches_py (p : string) : bool :=
  let b := last_segment p in
  negb (Str.startsWith "." b) && String.eqb (extname p) ".py".

Definition host : Host :=
  {| path_normalize := normalize;
     path_extname := extname;
     path_basename := basename;
     path_isAbsolute := Str.startsWith "/";
     path_relative := λ from to,
       default to (strip_prefix (from +:+ "/") to);
     path_join := λ a b, normalize (a +:+ "/" +:+ b);
     path_sep := "/";
     colors_red := red;
     JSON_value := string;
     JSON_parse := parse;
     JSON_stringify := id;
     minimatch := λ p _, matches_py p |}.

(** What a scripted compiler run does for one source path: exit code,
    stderr chunks, and the files it writes into the output directory. *)
Record Run := {
  run_code : option Z;
  run_stderr : list string;
  run_writes : list (string * string)
}.

Definition docker (script : list (string * Run)) (prog : string)
    (args : list string) (f : FS) (pend : list string) : ProcOutcome :=
  let src := default "" (args !! 9%nat) in
  let out := default "" (args !! 11%nat) in
  match list_find (λ e, fst e = src) script with
  | Some (_, (_, r)) =>
      {| proc_code := run_code r;
         proc_stderr := run_stderr r;
         proc_fs :=
           {| files := files f ++
                map (λ e, (entry_path out (fst e), snd e)) (run_writes r);
              dirs := dirs f ++ pend |} |}
  | None =>
      {| proc_code := Some 1;
         proc_stderr := ["No such file: " +:+ src];
         proc_fs := {| files := files f; dirs := dirs f ++ pend |} |}
  end.

(** Surroundings with a scripted compiler, a docker daemon that answers
    the preflight, and a profiler and a discovery that report [stale]. *)
Definition oracle (script : list (string * Run)) (stale : list string)
  : Oracle :=
  {| spawn_outcome := docker script;
     exec_outcome := λ _ _, None;
     Profiler_updated := λ _ _, inr stale;
     find_contracts := λ _ _, inr stale |}.

Definition options (l : list string) (q s : option bool)
    (positional : list string) : TruffleConfig :=
  {| contracts_directory := "/proj/contracts";
     contracts_build_directory := "/proj/build";
     working_directory := "/proj";
     paths := l;
     quiet := q;
     strict := s;
     cli_args := positional |}.

Definition good_run : Run :=
  {| run_code := Some 0;
     run_stderr := [];
     run_writes :=
       [ ("contractCode.py", "# echo");
         ("contractCode.tz.json", "[ 1,  2 ]");
         ("contractCode.tz", "parameter unit;");
         ("contractStorage.tz", "Unit");
         ("notes.txt", "kept") ] |}.

(** A run that exits with code 0 after a warning on stderr, delivered in
    two chunks. *)
Definition warning_run : Run :=
  {| run_code := Some 0;
     run_stderr := ["warning: "; "unused variable"];
     run_writes := [] |}.

(** A run that exits with code 1. *)
Definition failing_run : Run :=
  {| run_code := Some 1;
     run_stderr := ["SyntaxError: boom"];
     run_writes := [] |}.

Definition world (fl : list (string * string)) (ds : list string) : World :=
  {| fs := {| files := fl; dirs := ds |}; pending := []; trace := [] |}.

(** A project with one source file and a build directory. *)
Definition project : World :=
  world [("/proj/contracts/x.py", "import smartpy")]
        ["/proj"; "/proj/contracts"; "/proj/build"].

(** The same project before its build directory was ever created. *)
Definition fresh_project : World :=
  world [("/proj/contracts/x.py", "import smartpy")]
        ["/proj"; "/proj/contracts"].

(** A project with two sources of the same basename. *)
Definition twins : World :=
  world [("/proj/a/foo.py", "# a"); ("/proj/b/foo.py", "# b")]
        ["/proj"; "/proj/a"; "/proj/b"; "/proj/build"].

(** The request for the one source of [project]. *)
Definition request (s : option bool) : TruffleConfig :=
  options ["/proj/contracts/x.py"] None s [].

(** Surroundings in which the compiler does to that source what [r] says. *)
Definition compiling (r : Run) : Oracle :=
  oracle [("/proj/contracts/x.py", r)] [].

(** The request for the two sources of [twins], and surroundings in which
    both compile. *)
Definition twins_request : TruffleConfig :=
  options ["/proj/a/foo.py"; "/proj/b/foo.py"] None None [].

Definition twins_compiling : Oracle :=
  oracle [("/proj/a/foo.py", good_run); ("/proj/b/foo.py", good_run)] [].

(** [project] as a successful run leaves it, before the reconciler. *)
Definition compiled_project : World :=
  world [ ("/proj/contracts/x.py", "import smartpy");
          ("/proj/build/contractCode.py", "# echo");
          ("/proj/build/contractCode.tz.json", "[ 1,  2 ]");
          ("/proj/build/contractCode.tz", "parameter unit;");
          ("/proj/build/contractStorage.tz", "Unit");
          ("/proj/build/notes.txt", "kept") ]
        ["/proj"; "/proj/contracts"; "/proj/build"].

End Demo.

(** ** More surroundings and projects, for the further examples *)

Module Cases.

(** Surroundings without a docker daemon: the preflight fails. *)
Definition no_docker : Oracle :=
  {| spawn_outcome := Demo.docker [];
     exec_outcome := λ _ _, Some "docker: command not found";
     Profiler_updated := λ _ _, inr [];
     find_contracts := λ _ _, inr [] |}.

(** Surroundings whose discovery and profiler fail. *)
Definition no_contracts : Oracle :=
  {| spawn_outcome := Demo.docker [];
     exec_outcome := λ _ _, None;
     Profiler_updated := λ _ _, inl "ENOENT: /proj/contracts";
     find_contracts := λ _ _, inl "ENOENT: /proj/contracts" |}.

(** Surroundings whose compiler exits with code 0 and writes nothing, not
    even the directories under way. *)
Definition idle_compiler : Oracle :=
  {| spawn_outcome := λ _ _ f _,
       {| proc_code := Some 0; proc_stderr := []; proc_fs := f |};
     exec_outcome := λ _ _, None;
     Profiler_updated := λ _ _, inr [];
     find_contracts := λ _ _, inr [] |}.

(** A request with the paths in descending order. *)
Definition unsorted_request : TruffleConfig :=
  Demo.options ["/proj/b/foo.py"; "/proj/a/bar.py"] None None [].

(** A project with two sources of different basenames, and surroundings in
    which both compile. *)
Definition pair : World :=
  Demo.world [("/proj/a/bar.py", "# bar"); ("/proj/b/foo.py", "# foo")]
             ["/proj"; "/proj/a"; "/proj/b"; "/proj/build"].

Definition pair_request : TruffleConfig :=
  Demo.options ["/proj/a/bar.py"; "/proj/b/foo.py"] None None [].

Definition pair_compiling : Oracle :=
  Demo.oracle [("/proj/a/bar.py", Demo.good_run);
               ("/proj/b/foo.py", Demo.good_run)] [].

(** A project one of whose sources is named [__proto__.py], and
    surroundings in which both sources compile. *)
Definition proto : World :=
  Demo.world [("/proj/a/__proto__.py", "# proto"); ("/proj/b/foo.py", "# foo")]
             ["/proj"; "/proj/a"; "/proj/b"; "/proj/build"].

Definition proto_request : TruffleConfig :=
  Demo.options ["/proj/a/__proto__.py"; "/proj/b/foo.py"] None None [].

Definition proto_compiling : Oracle :=
  Demo.oracle [("/proj/a/__proto__.py", Demo.good_run);
               ("/proj/b/foo.py", Demo.good_run)] [].

(** A project whose build directory holds raw output only. *)
Definition raw_only : World :=
  Demo.world [ ("/proj/contracts/x.py", "import smartpy");
               ("/proj/build/contractCode.tz", "parameter unit;");
               ("/proj/build/notes.txt", "kept") ]
             ["/proj"; "/proj/contracts"; "/proj/build"].

(** A project whose build directory holds a program file with no JSON
    text in it, between two other entries. *)
Definition bad_json : World :=
  Demo.world [ ("/proj/contracts/x.py", "import smartpy");
               ("/proj/build/contractCode.py", "# echo");
               ("/proj/build/contractCode.tz.json", "  ");
               ("/proj/build/contractStorage.tz", "Unit") ]
             ["/proj"; "/proj/contracts"; "/proj/build"].

(** A project whose source file is gone. *)
Definition no_source : World :=
  Demo.world [] ["/proj"; "/proj/contracts"; "/proj/build"].

End Cases.

(** ** Facts about strings and the file system *)

Lemma app_cons (a : ascii) (s t : string) :
  String a s +:+ t = String a (s +:+ t).
Proof. reflexivity. Qed.

Lemma app_empty_l (t : string) : "" +:+ t = t.
Proof. reflexivity. Qed.

Lemma str_app_assoc (a b c : string) : a +:+ b +:+ c = (a +:+ b) +:+ c.
Proof.
  induction a as [|x a IH]; [done |].
  rewrite !(app_cons x). by rewrite IH.
Qed.

Lemma ascii_eqb_true (a b : ascii) : Ascii.eqb a b = true ↔ a = b.
Proof. apply Ascii.eqb_eq. Qed.

Lemma startsWith_spec (n h : string) :
  Str.startsWith n h = true ↔ ∃ b, h = n +:+ b.
Proof.
  revert h. induction n as [|a n IH]; intros h; simpl.
  - split; [intros _; by exists h | done].
  - destruct h as [|c h].
    + split; [done | intros [b Hb]; discriminate Hb].
    + destruct (Ascii.eqb a c) eqn:E.
      * apply ascii_eqb_true in E as ->. rewrite IH.
        split; intros [b Hb]; exists b.
        -- by rewrite app_cons, Hb.
        -- rewrite app_cons in Hb. by injection Hb.
      * split; [done |]. intros [b Hb]. rewrite app_cons in Hb.
        injection Hb as -> _. by rewrite Ascii.eqb_refl in E.
Qed.

Lemma includes_spec (n h : string) :
  Str.includes n h = true ↔ ∃ a b, h = a +:+ n +:+ b.
Proof.
  induction h as [|c h IH].
  - simpl. rewrite orb_false_r, startsWith_spec. split.
    + intros [b Hb]. by exists "", b.
    + intros [[|x a] [b Hb]]; [by exists b | discriminate Hb].
  - cbn [Str.includes]. rewrite orb_true_iff, startsWith_spec, IH. split.
    + intros [[b Hb] | (a & b & Hab)].
      * by exists "", b.
      * exists (String c a), b. by rewrite app_cons, Hab.
    + intros ([|x a] & b & Hab).
      * left. by exists b.
      * right. rewrite app_cons in Hab. injection Hab as -> ->. by exists a, b.
Qed.

Lemma strip_prefix_app (a b : string) : strip_prefix a (a +:+ b) = Some b.
Proof.
  induction a as [|x a IH]; [done |].
  rewrite app_cons. simpl. by rewrite Ascii.eqb_refl.
Qed.

Lemma strip_prefix_Some (a s b : string) :
  strip_prefix a s = Some b → s = a +:+ b.
Proof.
  revert s. induction a as [|x a IH]; intros s; simpl.
  - by intros [= ->].
  - destruct s as [|y s]; [done |].
    destruct (Ascii.eqb x y) eqn:E; [| done].
    apply ascii_eqb_true in E as ->. intros Hs. rewrite app_cons.
    f_equal. by apply IH.
Qed.

Lemma entry_path_inj (dir n1 n2 : string) :
  entry_path dir n1 = entry_path dir n2 → n1 = n2.
Proof.
  unfold entry_path. intros Heq.
  apply (inj (String.app dir)) in Heq. by apply (inj (String.app "/")) in Heq.
Qed.

Lemma child_of_Some (dir p n : string) :
  child_of dir p = Some n → p = entry_path dir n.
Proof.
  unfold child_of, entry_path.
  destruct (strip_prefix (dir +:+ "/") p) as [m|] eqn:E; [| done].
  destruct (Str.includes "/" m); [done |]. intros [= ->].
  apply strip_prefix_Some in E. by rewrite E, str_app_assoc.
Qed.

Lemma child_of_entry_path (dir n : string) :
  Str.includes "/" n = false → child_of dir (entry_path dir n) = Some n.
Proof.
  intros Hn. unfold child_of, entry_path.
  by rewrite str_app_assoc, strip_prefix_app, Hn.
Qed.

Lemma assoc_Some_elem (p c : string) (l : list (string * string)) :
  assoc p l = Some c → (p, c) ∈ l.
Proof.
  induction l as [|[k v] l IH]; simpl; [done |].
  destruct (decide (k = p)) as [->|].
  - intros [= ->]. left.
  - intros Hl. right. by apply IH.
Qed.

Lemma elem_assoc_is_Some (p c : string) (l : list (string * string)) :
  (p, c) ∈ l → is_Some (assoc p l).
Proof.
  induction l as [|[k v] l IH]; [by intros ?%elem_of_nil |].
  intros Hin. simpl. destruct (decide (k = p)); [by eexists |].
  apply elem_of_cons in Hin as [[= ? ?] | Hin]; [by subst | by apply IH].
Qed.

Lemma assoc_remove_ne (p q : string) (l : list (string * string)) :
  p ≠ q → assoc p (filter (λ e, fst e ≠ q) l) = assoc p l.
Proof.
  intros Hp. induction l as [|[k v] l IH]; [done |].
  rewrite filter_cons. simpl. destruct (decide (k ≠ q)) as [Hk|Hk]; simpl.
  - destruct (decide (k = p)); [done | apply IH].
  - destruct (decide (k = p)) as [->|]; [| apply IH].
    exfalso. apply Hk. done.
Qed.

Lemma assoc_remove_eq (p : string) (l : list (string * string)) :
  assoc p (filter (λ e, fst e ≠ p) l) = None.
Proof.
  induction l as [|[k v] l IH]; [done |].
  rewrite filter_cons. simpl. destruct (decide (k ≠ p)) as [Hk|Hk]; simpl.
  - destruct (decide (k = p)); [done | apply IH].
  - apply IH.
Qed.

Lemma assoc_keep (p : string) (D : list string) (l : list (string * string)) :
  p ∉ D → assoc p (filter (λ e, fst e ∉ D) l) = assoc p l.
Proof.
  intros Hp. induction l as [|[k v] l IH]; [done |].
  rewrite filter_cons. simpl. destruct (decide (k ∉ D)) as [Hk|Hk]; simpl.
  - destruct (decide (k = p)); [done | apply IH].
  - destruct (decide (k = p)) as [->|]; [done | apply IH].
Qed.

Lemma filter_all {A} (P : A → Prop) `{∀ x, Decision (P x)} (l : list A) :
  (∀ x, P x) → filter P l = l.
Proof.
  intros HP. induction l as [|x l IH]; [done |].
  by rewrite filter_cons_True, IH.
Qed.

Lemma sort_insert_perm (x : string) (l : list string) :
  sort_insert x l ≡ₚ x :: l.
Proof.
  induction l as [|y l IH]; [done |]. simpl.
  destruct (Str.ltb y x); [| done].
  rewrite IH. apply Permutation_swap.
Qed.

(** Sorting rearranges the paths and loses none. *)
Lemma sort_perm (l : list string) : sort l ≡ₚ l.
Proof.
  induction l as [|x l IH]; [done |].
  unfold sort. simpl. fold (sort l). by rewrite sort_insert_perm, IH.
Qed.

Lemma fs_list_elem (f : FS) (dir n : string) :
  n ∈ fs_list f dir → ∃ c, (entry_path dir n, c) ∈ files f.
Proof.
  unfold fs_list. rewrite list_elem_of_omap.
  intros ([p c] & Hin & Hchild). simpl in Hchild.
  apply child_of_Some in Hchild as ->. by exists c.
Qed.

Lemma fs_list_NoDup (f : FS) (dir : string) :
  NoDup (files f).*1 → NoDup (fs_list f dir).
Proof.
  unfold fs_list. induction (files f) as [|[p c] l IH]; simpl.
  - intros _. constructor.
  - rewrite NoDup_cons. intros [Hp Hl].
    destruct (child_of dir p) as [n|] eqn:E; simpl; [| by apply IH].
    apply NoDup_cons. split; [| by apply IH].
    rewrite list_elem_of_omap. intros ([q d] & Hin & Hq). simpl in Hq.
    apply child_of_Some in E, Hq. subst. apply Hp.
    apply list_elem_of_fmap. by exists (entry_path dir n, d).
Qed.

(** ** The reconciler, entry by entry and over a listing *)

Section Reconciler.
Context {host : Host}.

Lemma reconcile_entry_unrecognized options file vars w :
  classify file = Unrecognized →
  reconcile_entry options file vars w = (inr vars, w).
Proof.
  unfold classify, reconcile_entry. intros Hc.
  destruct (Str.includes ".py" file); [done |].
  destruct (Str.includes ".tz.json" file); [done |].
  by destruct (Str.includes ".tz" file).
Qed.

Lemma reconcile_entry_ok options file vars w c :
  classify file ≠ Unrecognized →
  fs_read (fs w) (entry_path (contracts_build_directory options) file)
    = Some c →
  (classify file = CompiledJson → is_Some (JSON_parse c)) →
  ∃ w', reconcile_entry options file vars w
          = (inr (capture file c vars), w') ∧
        fs w' = fs_remove (fs w)
                  (entry_path (contracts_build_directory options) file) ∧
        pending w' = pending w.
Proof.
  unfold classify, capture, classify, reconcile_entry.
  intros Hc Hread Hjson.
  destruct (Str.includes ".py" file).
  { unfold bind, unlinkSync, ret. rewrite Hread. by eexists. }
  destruct (Str.includes ".tz.json" file).
  { destruct Hjson as [j Hj]; [done |].
    unfold bind, readFileSync, unlinkSync, ret, canonical. simpl.
    rewrite Hread, Hj. simpl. rewrite Hread. by eexists. }
  destruct (Str.includes ".tz" file); [| done].
  unfold bind, readFileSync, unlinkSync, ret.
  destruct (String.eqb file "contractStorage.tz"); simpl;
    rewrite ?Hread; simpl; rewrite ?Hread; by eexists.
Qed.

Lemma captured_cons f dir n names vars :
  captured f dir (n :: names) vars
  = captured f dir names
      (match fs_read f (entry_path dir n) with
       | Some c => capture n c vars
       | None => vars
       end).
Proof. reflexivity. Qed.

Lemma captured_ext f1 f2 dir names vars :
  (∀ n, n ∈ names →
        fs_read f1 (entry_path dir n) = fs_read f2 (entry_path dir n)) →
  captured f1 dir names vars = captured f2 dir names vars.
Proof.
  revert vars. induction names as [|n names IH]; intros vars Hext; [done |].
  rewrite !captured_cons, (Hext n) by left.
  apply IH. intros m Hm. apply Hext. by right.
Qed.

Lemma captured_app f dir l1 l2 vars :
  captured f dir (l1 ++ l2) vars
  = captured f dir l2 (captured f dir l1 vars).
Proof. unfold captured. by rewrite foldl_app. Qed.

Lemma captured_fst_frame f dir names vars :
  Forall (λ n, classify n ≠ CompiledJson) names →
  fst (captured f dir names vars) = fst vars.
Proof.
  revert vars. induction names as [|n names IH]; intros vars Hall; [done |].
  apply Forall_cons in Hall as [Hn Hall].
  rewrite captured_cons, IH by done. destruct (fs_read f (entry_path dir n)); [| done].
  unfold capture. destruct (classify n); try done.
  by destruct (String.eqb n "contractStorage.tz").
Qed.

Lemma captured_snd_frame f dir names vars :
  "contractStorage.tz" ∉ names →
  snd (captured f dir names vars) = snd vars.
Proof.
  revert vars. induction names as [|n names IH]; intros vars Hnot; [done |].
  apply not_elem_of_cons in Hnot as [Hn Hnot].
  rewrite captured_cons, IH by done. destruct (fs_read f (entry_path dir n)); [| done].
  unfold capture. destruct (classify n); try done.
  destruct (String.eqb n "contractStorage.tz") eqn:E; [| done].
  apply String.eqb_eq in E. by subst.
Qed.

(** The whole pass over a listing, when every recognized entry is there
    to be read and every JSON entry parses. *)
Lemma reconcile_ok options names vars w :
  let dir := contracts_build_directory options in
  NoDup names →
  (∀ n, n ∈ names → classify n ≠ Unrecognized →
     ∃ c, fs_read (fs w) (entry_path dir n) = Some c ∧
          (classify n = CompiledJson → is_Some (JSON_parse c))) →
  ∃ w', forEach (reconcile_entry options) names vars w
          = (inr (captured (fs w) dir names vars), w') ∧
        files (fs w')
          = filter (λ e, fst e ∉ consumed dir names) (files (fs w)) ∧
        dirs (fs w') = dirs (fs w) ∧
        pending w' = pending w.
Proof.
  intros dir. revert vars w.
  induction names as [|n names IH]; intros vars w Hnd Hall.
  { exists w. split_and!; try done. unfold consumed. simpl.
    symmetry. apply filter_all. intros e. apply not_elem_of_nil. }
  apply NoDup_cons in Hnd as [Hn Hnd].
  destruct (decide (classify n = Unrecognized)) as [Hu|Hr].
  - destruct (IH vars w Hnd) as (w' & Hrun & Hfiles & Hdirs & Hpend).
    { intros m Hm. apply Hall. by right. }
    exists w'. split_and!; try done.
    + cbn [forEach]. unfold bind.
      rewrite reconcile_entry_unrecognized by done.
      rewrite Hrun. f_equal. rewrite captured_cons.
      destruct (fs_read (fs w) (entry_path dir n)); [| done].
      unfold capture. by rewrite Hu.
    + rewrite Hfiles. unfold consumed. rewrite filter_cons.
      by rewrite decide_False by (by intros ?).
  - destruct (Hall n) as (c & Hread & Hjson); [by left | done |].
    destruct (reconcile_entry_ok options n vars w c Hr Hread Hjson)
      as (w1 & Hstep & Hfs1 & Hpend1).
    assert (∀ m, m ∈ names →
              fs_read (fs w1) (entry_path dir m)
              = fs_read (fs w) (entry_path dir m)) as Hsame.
    { intros m Hm. rewrite Hfs1. unfold fs_read, fs_remove. simpl.
      apply assoc_remove_ne. intros Heq%entry_path_inj. by subst. }
    destruct (IH (capture n c vars) w1 Hnd) as (w' & Hrun & Hfiles & Hd & Hp).
    { intros m Hm Hrec. rewrite Hsame by done. apply Hall; [by right | done]. }
    exists w'. split_and!.
    + cbn [forEach]. unfold bind. rewrite Hstep, Hrun.
      rewrite captured_cons, Hread.
      by rewrite (captured_ext (fs w1) (fs w)).
    + rewrite Hfiles, Hfs1. unfold fs_remove. simpl.
      rewrite list_filter_filter. apply list_filter_iff. intros [p d]. simpl.
      unfold consumed. rewrite filter_cons, decide_True by done.
      rewrite fmap_cons, not_elem_of_cons. tauto.
    + by rewrite Hd, Hfs1.
    + by rewrite Hp.
Qed.

(** The part of the loop body after the invocation, under the same
    conditions. *)
Lemma collect_ok options sourcePath contractName w src :
  let dir := contracts_build_directory options in
  let names := fs_list (fs w) dir in
  fs_read (fs w) sourcePath = Some src →
  dir ∈ dirs (fs w) →
  NoDup names →
  (∀ n, n ∈ names → classify n ≠ Unrecognized →
     ∃ c, fs_read (fs w) (entry_path dir n) = Some c ∧
          (classify n = CompiledJson → is_Some (JSON_parse c))) →
  ∃ w', collect sourcePath contractName options w
        = (inr {| Contract.contractName := contractName;
                  Contract.abi := [];
                  Contract.initialStorage :=
                    snd (captured (fs w) dir names (None, None));
                  Contract.sourcePath := sourcePath;
                  Contract.source := src;
                  Contract.michelson :=
                    fst (captured (fs w) dir names (None, None));
                  Contract.compiler := compiler |}, w') ∧
        files (fs w')
          = filter (λ e, fst e ∉ consumed dir names) (files (fs w)).
Proof.
  intros dir names Hsrc Hdir Hnd Hall.
  destruct (reconcile_ok options names (None, None)
              (emit (ReadDir dir) (emit (ReadFile sourcePath) w)) Hnd Hall)
    as (w' & Hrun & Hfiles & _ & _).
  exists w'. split; [| done].
  unfold collect, bind, readFileSync, readdirSync. rewrite Hsrc. simpl.
  rewrite bool_decide_eq_true_2 by done.
  fold dir. fold names. by rewrite Hrun.
Qed.

End Reconciler.

(** ** Trace and frame lemmas *)

Lemma emits_ret {A} P (a : A) : emits P (ret a).
Proof. intros w r w' [= <- <-]. exists []. by rewrite app_nil_r. Qed.

Lemma emits_throw {A} P (x : Exn) : emits P (throw (A:=A) x).
Proof. intros w r w' [= <- <-]. exists []. by rewrite app_nil_r. Qed.

Lemma emits_bind {A B} P (c : M A) (k : A → M B) :
  emits P c → (∀ a, emits P (k a)) → emits P (bind c k).
Proof.
  intros Hc Hk w r w'. unfold bind.
  destruct (c w) as [[x|a] w1] eqn:E.
  - intros [= <- <-]. by apply (Hc w (inl x)).
  - intros Hrun. destruct (Hc _ _ _ E) as (evs1 & Ht1 & HP1).
    destruct (Hk _ _ _ _ Hrun) as (evs2 & Ht2 & HP2).
    exists (evs1 ++ evs2). split.
    + by rewrite Ht2, Ht1, app_assoc.
    + by apply Forall_app.
Qed.

Lemma emits_one {A} (P : Event → Prop) (c : M A) (e : Event) :
  P e → (∀ w, trace (snd (c w)) = trace w ++ [e]) → emits P c.
Proof.
  intros He Hc w r w' Hrun. exists [e]. split.
  - specialize (Hc w). by rewrite Hrun in Hc.
  - by apply Forall_singleton.
Qed.

Lemma emits_existsSync P p : P (ExistsSync p) → emits P (existsSync p).
Proof. intros HP. by apply (emits_one P _ (ExistsSync p)). Qed.

Lemma emits_readFileSync P p : P (ReadFile p) → emits P (readFileSync p).
Proof.
  intros HP. apply (emits_one P _ (ReadFile p)); [done |].
  intros w. unfold readFileSync. by destruct (fs_read (fs w) p).
Qed.

Lemma emits_readdirSync P d : P (ReadDir d) → emits P (readdirSync d).
Proof.
  intros HP. apply (emits_one P _ (ReadDir d)); [done |].
  intros w. unfold readdirSync. by case_bool_decide.
Qed.

Lemma emits_unlinkSync P p : P (Unlink p) → emits P (unlinkSync p).
Proof.
  intros HP. apply (emits_one P _ (Unlink p)); [done |].
  intros w. unfold unlinkSync. by destruct (fs_read (fs w) p).
Qed.

Lemma emits_promisifiedMkdirp P d : P (Mkdirp d) → emits P (promisifiedMkdirp d).
Proof. intros HP. by apply (emits_one P _ (Mkdirp d)). Qed.

Lemma emits_log P msg : P (Log msg) → emits P (log msg).
Proof. intros HP. by apply (emits_one P _ (Log msg)). Qed.

Lemma emits_forEach {A S} P (f : A → S → M S) (l : list A) (s : S) :
  (∀ a s, a ∈ l → emits P (f a s)) → emits P (forEach f l s).
Proof.
  revert s. induction l as [|a l IH]; intros s Hf.
  - apply emits_ret.
  - cbn [forEach]. apply emits_bind.
    + apply Hf. left.
    + intros s'. apply IH. intros b t Hb. apply Hf. by right.
Qed.

Lemma keeps_ret {A} q (a : A) : keeps q (ret a).
Proof. by intros w r w' [= <- <-]. Qed.

Lemma keeps_throw {A} q (x : Exn) : keeps q (throw (A:=A) x).
Proof. by intros w r w' [= <- <-]. Qed.

Lemma keeps_bind {A B} q (c : M A) (k : A → M B) :
  keeps q c → (∀ a, keeps q (k a)) → keeps q (bind c k).
Proof.
  intros Hc Hk w r w'. unfold bind.
  destruct (c w) as [[x|a] w1] eqn:E.
  - intros [= <- <-]. by apply (Hc w (inl x)).
  - intros Hrun. destruct (Hc _ _ _ E) as [Hin1 Hrd1].
    destruct (Hk _ _ _ _ Hrun) as [Hin2 Hrd2]. split.
    + intros d Hd. by apply Hin2, Hin1.
    + by rewrite Hrd2, Hrd1.
Qed.

Lemma keeps_readFileSync q p : keeps q (readFileSync p).
Proof.
  intros w r w'. unfold readFileSync.
  by destruct (fs_read (fs w) p); intros [= <- <-].
Qed.

Lemma keeps_unlinkSync q p : q ≠ p → keeps q (unlinkSync p).
Proof.
  intros Hq w r w'. unfold unlinkSync.
  destruct (fs_read (fs w) p); intros [= <- <-]; [| done]. simpl. split.
  - intros d Hd. by apply list_elem_of_filter.
  - by apply assoc_remove_ne.
Qed.

Lemma keeps_forEach {A S} q (f : A → S → M S) (l : list A) (s : S) :
  (∀ a s, a ∈ l → keeps q (f a s)) → keeps q (forEach f l s).
Proof.
  revert s. induction l as [|a l IH]; intros s Hf.
  - apply keeps_ret.
  - cbn [forEach]. apply keeps_bind.
    + apply Hf. left.
    + intros s'. apply IH. intros b t Hb. apply Hf. by right.
Qed.

Section ReconcilerFrame.
Context {host : Host}.

(** One entry touches nothing but its own path, and only when its class
    is recognized. *)
Lemma reconcile_entry_emits options file vars q :
  (classify file = Unrecognized ∨
   q ≠ entry_path (contracts_build_directory options) file) →
  emits (λ e, e ≠ ReadFile q ∧ e ≠ Unlink q)
        (reconcile_entry options file vars).
Proof.
  intros [Hu | Hq].
  { intros w r w'. rewrite reconcile_entry_unrecognized by done.
    intros [= <- <-]. exists []. by rewrite app_nil_r. }
  assert (∀ e, (e = ReadFile (entry_path (contracts_build_directory options)
                                file) ∨
                e = Unlink (entry_path (contracts_build_directory options)
                              file)) →
               e ≠ ReadFile q ∧ e ≠ Unlink q) as Hown.
  { intros e [-> | ->]; split; congruence. }
  unfold reconcile_entry.
  repeat first
    [ apply emits_ret | apply emits_throw
    | apply emits_unlinkSync; apply Hown; by right
    | apply emits_readFileSync; apply Hown; by left
    | apply emits_bind; [| intros ?]
    | match goal with |- emits _ (if ?b then _ else _) => destruct b end
    | match goal with |- emits _ (match ?o with _ => _ end) => destruct o end ].
Qed.

Lemma reconcile_entry_keeps options file vars q :
  (classify file = Unrecognized ∨
   q ≠ entry_path (contracts_build_directory options) file) →
  keeps q (reconcile_entry options file vars).
Proof.
  intros [Hu | Hq].
  { intros w r w'. rewrite reconcile_entry_unrecognized by done.
    by intros [= <- <-]. }
  unfold reconcile_entry.
  repeat first
    [ apply keeps_ret | apply keeps_throw
    | by apply keeps_unlinkSync
    | apply keeps_readFileSync
    | apply keeps_bind; [| intros ?]
    | match goal with |- keeps _ (if ?b then _ else _) => destruct b end
    | match goal with |- keeps _ (match ?o with _ => _ end) => destruct o end ].
Qed.

End ReconcilerFrame.

(** ** One invocation, and the loop over the paths *)

Section Invocation.
Context {host : Host} {oracle : Oracle}.

Lemma ensure_build_directory_run options w :
  ensure_build_directory options w
  = (inr (),
     {| fs := fs w;
        pending := launch_pending options w;
        trace := trace w ++
          ExistsSync (contracts_build_directory options) ::
          (if fs_exists (fs w) (contracts_build_directory options) then []
           else [Mkdirp (contracts_build_directory options)]) |}).
Proof.
  unfold ensure_build_directory, bind, existsSync, launch_pending. simpl.
  destruct (fs_exists (fs w) (contracts_build_directory options)); simpl.
  - done.
  - unfold promisifiedMkdirp. simpl. by rewrite <- app_assoc.
Qed.

Lemma execSmartPy_run sourcePath entryPoint options w :
  execSmartPy sourcePath entryPoint options w
  = (let o := invocation sourcePath entryPoint options w in
     (inr (if code_nonzero (proc_code o) ||
              negb (String.eqb (diagnostics o) "")
           then inl (failure_message sourcePath (diagnostics o))
           else inr (contractName_of sourcePath)),
      {| fs := proc_fs o;
         pending := [];
         trace := trace w ++
                  launch_events sourcePath entryPoint options w |})).
Proof.
  unfold execSmartPy, bind. rewrite ensure_build_directory_run.
  unfold spawn, invocation, launch_events, diagnostics, failure_message.
  simpl.
  destruct (code_nonzero _ || negb _); unfold ret;
    by rewrite <- app_assoc.
Qed.

Lemma code_nonzero_true (code : option Z) :
  code ≠ Some 0 → code_nonzero code = true.
Proof. destruct code as [[| |]|]; done. Qed.

(** A non-zero exit code, or any diagnostic output, rejects. *)
Lemma execSmartPy_rejects sourcePath entryPoint options w :
  let o := invocation sourcePath entryPoint options w in
  proc_code o ≠ Some 0 ∨ diagnostics o ≠ "" →
  fst (execSmartPy sourcePath entryPoint options w)
  = inr (inl (failure_message sourcePath (diagnostics o))).
Proof.
  intros o Hfail. rewrite execSmartPy_run. fold o. simpl.
  destruct Hfail as [Hcode | Herr].
  - by rewrite code_nonzero_true.
  - destruct (String.eqb (diagnostics o) "") eqn:E.
    + by apply String.eqb_eq in E.
    + by rewrite orb_true_r.
Qed.

(** Exit code zero and no diagnostic output resolves with the name. *)
Lemma execSmartPy_resolves sourcePath entryPoint options w :
  let o := invocation sourcePath entryPoint options w in
  proc_code o = Some 0 → diagnostics o = "" →
  fst (execSmartPy sourcePath entryPoint options w)
  = inr (inr (contractName_of sourcePath)).
Proof.
  intros o Hcode Herr. rewrite execSmartPy_run. fold o. simpl.
  by rewrite Hcode, Herr.
Qed.

(** The loop over a concatenation runs the second part in the state the
    first part leaves, unless the first part stopped. *)
Lemma compile_loop_app l1 l2 entryPoint options contracts w :
  compile_loop (l1 ++ l2) entryPoint options contracts w
  = match compile_loop l1 entryPoint options contracts w with
    | (inr (inr contracts1), w1) =>
        compile_loop l2 entryPoint options contracts1 w1
    | stopped => stopped
    end.
Proof.
  revert contracts w. induction l1 as [|p l1 IH]; intros contracts w.
  - done.
  - cbn [compile_loop app]. unfold bind.
    destruct (execSmartPy p entryPoint options w) as [[x|[e|name]] w1];
      [done | done |].
    destruct (collect p name options w1) as [[x|c] w2]; [done |].
    apply IH.
Qed.

(** The records the loop returns: one per path, in order, each named by
    [contractName_of] and stamped with [compiler]. *)
Lemma compile_loop_records todo entryPoint options contracts w cs w' :
  compile_loop todo entryPoint options contracts w = (inr (inr cs), w') →
  ∃ new, cs = contracts ++ new ∧
         Contract.sourcePath <$> new = todo ∧
         Forall (λ c, Contract.contractName c
                      = contractName_of (Contract.sourcePath c) ∧
                      Contract.compiler c = compiler) new.
Proof.
  revert contracts w. induction todo as [|p todo IH]; intros contracts w.
  - intros [= <- <-]. exists []. by rewrite app_nil_r.
  - cbn [compile_loop]. unfold bind. rewrite execSmartPy_run. cbv zeta.
    destruct (code_nonzero _ || negb _); [done |].
    unfold collect, bind.
    destruct (readFileSync p _) as [[x|src] w1]; [done |].
    destruct (readdirSync _ w1) as [[x|names] w2]; [done |].
    destruct (forEach _ names _ w2) as [[x|vars] w3]; [done |].
    unfold ret. intros Hrest.
    destruct (IH _ _ Hrest) as (new & -> & Hpaths & Hall).
    eexists (_ :: new). split_and!.
    + by rewrite <- app_assoc.
    + by rewrite fmap_cons, Hpaths.
    + by apply Forall_cons.
Qed.

Lemma display_run paths options w :
  fst (display paths options w)
  = inr (if negb (bool_decide (quiet options = Some true))
         then sort paths else paths).
Proof.
  unfold display.
  destruct (negb (bool_decide (quiet options = Some true))); [| done].
  unfold bind. generalize (sort paths) at 1. intros l.
  assert (∀ w0, fst (forEach
            (λ contract (_ : unit),
               log ("> Compiling " +:+
                    (if path_isAbsolute contract
                     then "." +:+ path_sep +:+
                          path_relative (working_directory options) contract
                     else contract))) l () w0) = inr ()) as Hlog.
  { induction l as [|a l IH]; intros w0; [done |].
    cbn [forEach]. unfold bind, log. apply IH. }
  specialize (Hlog w).
  destruct (forEach _ l () w) as [[x|[]] w1]; [done | done].
Qed.

Lemma compileAll_run options w :
  compileAll options w
  = (let order := compile_order options in
     let w1 := snd (display (paths options) options w) in
     match compile_loop order (entryPoint_of options)
             (set_paths options order) [] w1 with
     | (inl x, w2) => (inl x, w2)
     | (inr (inl error), w2) => (inr (Failure error), w2)
     | (inr (inr contracts), w2) =>
         (inr (Success (aggregate contracts) order (Some compiler)), w2)
     end).
Proof.
  unfold compileAll, bind. pose proof (display_run (paths options) options w)
    as Hd.
  destruct (display (paths options) options w) as [[x|order] w1];
    [done |]. simpl in Hd. injection Hd as ->. fold (compile_order options).
  simpl.
  destruct (compile_loop _ _ _ [] w1) as [[x|[e|cs]] w2]; done.
Qed.

Lemma assign_lookup_eq (m : ResultObject) (key : string) (c : Contract.t) :
  key ≠ "__proto__" → assign m key c !! key = Some c.
Proof.
  intros Hkey. unfold assign, lookup, ResultObject_lookup.
  rewrite decide_False by done. simpl. apply lookup_insert_eq.
Qed.

Lemma assign_lookup_ne (m : ResultObject) (key k : string) (c : Contract.t) :
  key = "__proto__" ∨ key ≠ k → assign m key c !! k = m !! k.
Proof.
  intros Hkey. unfold assign, lookup, ResultObject_lookup.
  destruct (decide (key = "__proto__")) as [Hp | Hp]; simpl; [done |].
  destruct Hkey as [? | Hne]; [done |]. by apply lookup_insert_ne.
Qed.

Lemma assign_prototype_eq (m : ResultObject) (c : Contract.t) :
  prototype (assign m "__proto__" c) = Some c.
Proof. reflexivity. Qed.

Lemma assign_prototype_ne (m : ResultObject) (key : string) (c : Contract.t) :
  key ≠ "__proto__" → prototype (assign m key c) = prototype m.
Proof. intros Hkey. unfold assign. by rewrite decide_False. Qed.

Lemma aggregate_snoc (cs : list Contract.t) (c : Contract.t) :
  aggregate (cs ++ [c]) = assign (aggregate cs) (Contract.contractName c) c.
Proof. unfold aggregate. by rewrite foldl_app. Qed.

(** The record kept under a name is the last one of that name. *)
Lemma aggregate_last (cs1 cs2 : list Contract.t) (c : Contract.t) :
  Contract.contractName c ≠ "__proto__" →
  Forall (λ c', Contract.contractName c' ≠ Contract.contractName c) cs2 →
  aggregate (cs1 ++ c :: cs2) !! Contract.contractName c = Some c.
Proof.
  intros Hname. induction cs2 as [|x cs2 IH] using rev_ind; intros Hall.
  - rewrite aggregate_snoc. by apply assign_lookup_eq.
  - apply Forall_app in Hall as [Hall [Hx _]%Forall_cons].
    replace (cs1 ++ c :: cs2 ++ [x]) with ((cs1 ++ c :: cs2) ++ [x])
      by (by rewrite <- app_assoc).
    rewrite aggregate_snoc, assign_lookup_ne by (by right). by apply IH.
Qed.

(** The prototype is the last record named [__proto__]. *)
Lemma aggregate_last_prototype (cs1 cs2 : list Contract.t) (c : Contract.t) :
  Contract.contractName c = "__proto__" →
  Forall (λ c', Contract.contractName c' ≠ "__proto__") cs2 →
  prototype (aggregate (cs1 ++ c :: cs2)) = Some c.
Proof.
  intros Hname. induction cs2 as [|x cs2 IH] using rev_ind; intros Hall.
  - rewrite aggregate_snoc, Hname. apply assign_prototype_eq.
  - apply Forall_app in Hall as [Hall [Hx _]%Forall_cons].
    replace (cs1 ++ c :: cs2 ++ [x]) with ((cs1 ++ c :: cs2) ++ [x])
      by (by rewrite <- app_assoc).
    rewrite aggregate_snoc, assign_prototype_ne by done. by apply IH.
Qed.

(** No assignment ever creates an own property [__proto__]. *)
Lemma aggregate_no_own_prototype (cs : list Contract.t) :
  aggregate cs !! "__proto__" = None.
Proof.
  induction cs as [|x cs IH] using rev_ind; [done |].
  rewrite aggregate_snoc.
  destruct (decide (Contract.contractName x = "__proto__")) as [Hp | Hp].
  - by rewrite assign_lookup_ne by (by left).
  - by rewrite assign_lookup_ne by (by right).
Qed.

Lemma aggregate_prototype_elem (cs : list Contract.t) (c : Contract.t) :
  prototype (aggregate cs) = Some c → c ∈ cs.
Proof.
  induction cs as [|x cs IH] using rev_ind; [done |].
  rewrite aggregate_snoc.
  destruct (decide (Contract.contractName x = "__proto__")) as [Hp | Hp].
  - rewrite Hp, assign_prototype_eq. intros [= ->].
    apply elem_of_app. right. left.
  - rewrite assign_prototype_ne by done. intros Hc.
    apply elem_of_app. left. by apply IH.
Qed.

Lemma aggregate_elem (cs : list Contract.t) (n : string) (c : Contract.t) :
  aggregate cs !! n = Some c → c ∈ cs.
Proof.
  induction cs as [|x cs IH] using rev_ind.
  - unfold aggregate, lookup, ResultObject_lookup. simpl.
    by rewrite lookup_empty.
  - rewrite aggregate_snoc.
    destruct (decide (Contract.contractName x = "__proto__")) as [Hp | Hp].
    { rewrite assign_lookup_ne by (by left). intros Hc.
      apply elem_of_app. left. by apply IH. }
    destruct (decide (Contract.contractName x = n)) as [<- | Hne].
    + rewrite assign_lookup_eq by done. intros [= ->].
      apply elem_of_app. right. left.
    + rewrite assign_lookup_ne by (by right). intros Hc.
      apply elem_of_app. left. by apply IH.
Qed.

Lemma emits_spawn (P : Event → Prop) prog args :
  P (Spawn prog args) → emits P (spawn prog args).
Proof. intros HP. by apply (emits_one P _ (Spawn prog args)). Qed.


(** Every process [compileAll] starts runs the image tagged 0.0.1. *)
Lemma compileAll_emits_image options :
  emits runs_image_001 (compileAll options).
Proof.
  assert (∀ todo e o cs, emits runs_image_001 (compile_loop todo e o cs))
    as Hloop.
  { induction todo as [|p todo IH]; intros e o cs; cbn [compile_loop].
    - apply emits_ret.
    - apply emits_bind.
      + unfold execSmartPy, ensure_build_directory.
        repeat first
          [ apply emits_ret
          | by apply emits_existsSync
          | by apply emits_promisifiedMkdirp
          | by apply emits_spawn
          | apply emits_bind; [| intros ?]
          | match goal with
            | |- emits _ (if ?b then _ else _) => destruct b
            end ].
      + intros [err | name]; [apply emits_ret |].
        apply emits_bind; [| intros c; apply IH].
        unfold collect.
        repeat first
          [ apply emits_ret
          | by apply emits_readFileSync
          | by apply emits_readdirSync
          | apply emits_bind; [| intros ?] ].
        apply emits_forEach. intros file vars _. unfold reconcile_entry.
        repeat first
          [ apply emits_ret | apply emits_throw
          | by apply emits_unlinkSync
          | by apply emits_readFileSync
          | apply emits_bind; [| intros ?]
          | match goal with
            | |- emits _ (if ?b then _ else _) => destruct b
            | |- emits _ (match ?o with _ => _ end) => destruct o
            end ]. }
  unfold compileAll. apply emits_bind.
  { unfold display. destruct (negb _); [| apply emits_ret].
    apply emits_bind; [| intros ?; apply emits_ret].
    apply emits_forEach. intros a [] _. by apply emits_log. }
  intros order. apply emits_bind; [apply Hloop |].
  intros [e | cs]; apply emits_ret.
Qed.

Lemma filter_is_spawn_none (evs : list Event) :
  Forall (λ e, ¬ is_spawn e) evs → filter is_spawn evs = [].
Proof.
  induction 1 as [|e evs He _ IH]; [done |].
  by rewrite filter_cons_False.
Qed.

(** Reading the source and reconciling the directory starts no process. *)
Lemma collect_no_spawn sourcePath contractName options :
  emits (λ e, ¬ is_spawn e) (collect sourcePath contractName options).
Proof.
  unfold collect.
  apply emits_bind; [apply emits_readFileSync; by intros [] | intros src].
  apply emits_bind; [apply emits_readdirSync; by intros [] | intros names].
  apply emits_bind; [| intros vars; apply emits_ret].
  apply emits_forEach. intros file vars _. unfold reconcile_entry.
  repeat first
    [ apply emits_ret | apply emits_throw
    | apply emits_unlinkSync; by intros []
    | apply emits_readFileSync; by intros []
    | apply emits_bind; [| intros ?]
    | match goal with
      | |- emits _ (if ?b then _ else _) => destruct b
      | |- emits _ (match ?o with _ => _ end) => destruct o
      end ].
Qed.

Lemma display_no_spawn paths options w :
  filter is_spawn (trace (snd (display paths options w)))
  = filter is_spawn (trace w).
Proof.
  assert (emits (λ e, ¬ is_spawn e) (display paths options)) as Hemits.
  { unfold display. destruct (negb _); [| apply emits_ret].
    apply emits_bind; [| intros ?; apply emits_ret].
    apply emits_forEach. intros a [] _. apply emits_log. by intros []. }
  destruct (Hemits w _ _ (surjective_pairing _)) as (evs & -> & Hevs).
  by rewrite filter_app, (filter_is_spawn_none evs), app_nil_r.
Qed.

(** A loop that completes has spawned one process per source, in order. *)
Lemma compile_loop_spawns todo entryPoint options contracts w cs w' :
  compile_loop todo entryPoint options contracts w = (inr (inr cs), w') →
  filter is_spawn (trace w')
  = filter is_spawn (trace w) ++
    ((λ p, Spawn "docker" (docker_args p entryPoint options)) <$> todo).
Proof.
  revert contracts w. induction todo as [|p todo IH]; intros contracts w.
  - intros [= _ <-]. by rewrite app_nil_r.
  - cbn [compile_loop]. unfold bind. rewrite execSmartPy_run. cbv zeta.
    destruct (code_nonzero _ || negb _); [done |].
    destruct (collect p _ options _) as [[x|c] w2] eqn:Hcollect; [done |].
    intros Hrest. rewrite (IH _ _ Hrest).
    destruct (collect_no_spawn _ _ _ _ _ _ Hcollect) as (evs & -> & Hevs).
    simpl. rewrite !filter_app, (filter_is_spawn_none evs Hevs), app_nil_r.
    rewrite <- app_assoc. f_equal. unfold launch_events.
    rewrite filter_cons_False by (by intros ?). rewrite filter_app.
    by destruct (fs_exists _ _).
Qed.

Lemma docker_args_set_paths sourcePath entryPoint options l :
  docker_args sourcePath entryPoint (set_paths options l)
  = docker_args sourcePath entryPoint options.
Proof. reflexivity. Qed.

End Invocation.

(** ** The properties of the specification *)

Lemma replace_backslashes_get (s : string) (i : nat) :
  String.get i (Str.replace_backslashes s)
  = (λ c, if Ascii.eqb c Str.backslash then "/"%char else c)
      <$> String.get i s.
Proof.
  revert i. induction s as [|c s IH]; intros i; [done |].
  destruct i as [|i]; [done |]. simpl. apply IH.
Qed.

Lemma replace_backslashes_clean (s : string) :
  Str.includes (String Str.backslash "") (Str.replace_backslashes s) = false.
Proof.
  induction s as [|c s IH]; [done |].
  cbn [Str.replace_backslashes Str.includes Str.startsWith]. rewrite IH.
  destruct (Ascii.eqb c Str.backslash) eqn:E; [done |].
  rewrite Ascii.eqb_sym, E. done.
Qed.

Section Claims.
Context {host : Host} {oracle : Oracle}.

(** C5.  Every invocation spawns [docker] with the discrete tokens
    [run -v <hostDir>:<hostDir> -w <hostDir> --rm -i <image> compile
    <normalizedSourcePath> <entryExpr> <outputDir>], and spawns nothing
    else.  The host directory is the normalized working directory, the same
    string on both sides of the colon; the source path is normalized and
    then has every backslash replaced by a forward slash, code unit by code
    unit; the entry expression is the override followed by [()] when an
    override is supplied (a non-empty string), and the basename without its
    extension followed by [()] otherwise. *)
Theorem execSmartPy_spawn_arguments sourcePath entryPoint options w :
  let hostDir := path_normalize (working_directory options) in
  let normalizedSourcePath :=
    Str.replace_backslashes (path_normalize sourcePath) in
  let logicalName := path_basename sourcePath (path_extname sourcePath) in
  let entryExpr :=
    match entryPoint with
    | Some (String c e) => String c e +:+ "()"
    | _ => logicalName +:+ "()"
    end in
  let spawned :=
    Spawn "docker"
      [ "run"; "-v"; hostDir +:+ ":" +:+ hostDir; "-w"; hostDir; "--rm"; "-i";
        "trufflesuite/smartpy-basic:0.0.1"; "compile"; normalizedSourcePath;
        entryExpr; contracts_build_directory options ] in
  let w' := snd (execSmartPy sourcePath entryPoint options w) in
  (∃ before, trace w' = trace w ++ before ++ [spawned] ∧
             filter is_spawn before = []) ∧
  Str.includes (String Str.backslash "") normalizedSourcePath = false ∧
  (∀ i, String.get i normalizedSourcePath
        = (λ c, if Ascii.eqb c Str.backslash then "/"%char else c)
            <$> String.get i (path_normalize sourcePath)).
Proof.
  intros hostDir normalizedSourcePath logicalName entryExpr spawned w'.
  split_and!.
  - subst w'. rewrite execSmartPy_run. simpl. unfold launch_events.
    assert (docker_args sourcePath entryPoint options
            = [ "run"; "-v"; hostDir +:+ ":" +:+ hostDir; "-w"; hostDir;
                "--rm"; "-i"; "trufflesuite/smartpy-basic:0.0.1"; "compile";
                normalizedSourcePath; entryExpr;
                contracts_build_directory options ]) as ->.
    { unfold docker_args, entry_expression, contractName_of.
      subst entryExpr. by destruct entryPoint as [[|c e]|]. }
    eexists (_ :: _). split; [reflexivity |].
    by destruct (fs_exists _ _).
  - apply replace_backslashes_clean.
  - apply replace_backslashes_get.
Qed.

(** C6.  When the change detection reports no stale source,
    [compileSmartPy.necessary] calls back with an empty result object and
    leaves the world as it found it: no preflight command is executed and no
    compiler process is spawned, whatever the quiet flag is. *)
Theorem necessary_with_empty_stale_set options w :
  Profiler_updated (updateContractsDirectory options) (fs w) = inr [] →
  compileSmartPy_necessary options w = (inr (Success ∅ [] None), w).
Proof.
  intros Hstale. unfold compileSmartPy_necessary, compile_necessary.
  rewrite Hstale. simpl.
  destruct (negb (bool_decide (quiet _ = Some true))); [done |].
  by unfold compileSmartPy.
Qed.

(** C8 (the code at the failing input).  When [existsSync] does not see the
    build directory, [execSmartPy] requests its creation and goes on at
    once: the compiler process is started on a file system that does not
    hold the directory, with the creation still under way. *)
Theorem build_directory_absent_at_launch sourcePath entryPoint options w :
  fs_exists (fs w) (contracts_build_directory options) = false →
  ∃ w1, ensure_build_directory options w = (inr (), w1) ∧
        fs_exists (fs w1) (contracts_build_directory options) = false ∧
        pending w1 = pending w ++ [contracts_build_directory options] ∧
        invocation sourcePath entryPoint options w
        = spawn_outcome "docker"
            (docker_args sourcePath entryPoint options)
            (fs w1) (pending w1).
Proof.
  intros Habsent. eexists. split; [apply ensure_build_directory_run |].
  unfold invocation, launch_pending. simpl. by rewrite Habsent.
Qed.

(** C9.  An entry whose name contains [.py] anywhere is unlinked as a source
    echo, whatever its name ends in: it is not read, the two variables keep
    their values, and the only event is the unlink of its path. *)
Theorem py_substring_is_source_echo options (a b : string) vars w c :
  let file := a +:+ ".py" +:+ b in
  let currentFilePath :=
    entry_path (contracts_build_directory options) file in
  fs_read (fs w) currentFilePath = Some c →
  classify file = SourceEcho ∧
  reconcile_entry options file vars w
  = (inr vars,
     {| fs := fs_remove (fs w) currentFilePath;
        pending := pending w;
        trace := trace w ++ [Unlink currentFilePath] |}).
Proof.
  intros file currentFilePath Hread.
  assert (Str.includes ".py" file = true) as Hpy.
  { apply includes_spec. by exists a, b. }
  split.
  - unfold classify. by rewrite Hpy.
  - unfold reconcile_entry. rewrite Hpy. fold currentFilePath.
    unfold bind, unlinkSync. by rewrite Hread.
Qed.

(** C7.  The callback of the reconciler checks an entry against the classes
    in the order of the specification (source echo, then JSON-encoded
    program, then raw program output) and does nothing for an entry of no
    class.  Over a whole listing, and however the pass ends, a file of no
    recognized class stays in the directory with its content, and no read
    and no unlink of its path is added to the trace. *)
Theorem unrecognized_entries_untouched options names vars w r w' file :
  let dir := contracts_build_directory options in
  classify file = Unrecognized →
  forEach (reconcile_entry options) names vars w = (r, w') →
  (∀ f v,
     reconcile_entry options f v
     = (let currentFilePath := entry_path dir f in
       match classify f with
       | SourceEcho => run unlinkSync currentFilePath; ret v
       | CompiledJson =>
           do michelsonAsRawData <- readFileSync currentFilePath;
           match JSON_parse michelsonAsRawData with
           | None => throw (SyntaxError michelsonAsRawData)
           | Some michelsonJson =>
               run unlinkSync currentFilePath;
               ret (Some (JSON_stringify michelsonJson), snd v)
           end
       | RawOutput =>
           do v' <-
             (if String.eqb f "contractStorage.tz" then
                do initialStorageRawData <- readFileSync currentFilePath;
                ret (fst v, Some initialStorageRawData)
              else ret v);
           run unlinkSync currentFilePath; ret v'
       | Unrecognized => ret v
       end)) ∧
  (∀ d, (entry_path dir file, d) ∈ files (fs w) →
        (entry_path dir file, d) ∈ files (fs w')) ∧
  fs_read (fs w') (entry_path dir file) = fs_read (fs w) (entry_path dir file) ∧
  ∃ evs, trace w' = trace w ++ evs ∧
         (ReadFile (entry_path dir file) ∉ evs) ∧
         (Unlink (entry_path dir file) ∉ evs).
Proof.
  intros dir Hclass Hrun.
  assert (∀ n, classify n = Unrecognized ∨
               entry_path dir file ≠ entry_path dir n) as Hother.
  { intros n. destruct (decide (n = file)) as [-> | Hne]; [by left |].
    right. intros Heq%entry_path_inj. by subst. }
  split_and!.
  - intros f v. unfold reconcile_entry, classify.
    destruct (Str.includes ".py" f); [done |].
    destruct (Str.includes ".tz.json" f); [done |].
    by destruct (Str.includes ".tz" f).
  - eapply (keeps_forEach (entry_path dir file)); [| exact Hrun].
    intros n v _. by apply reconcile_entry_keeps.
  - eapply (keeps_forEach (entry_path dir file)); [| exact Hrun].
    intros n v _. by apply reconcile_entry_keeps.
  - destruct (emits_forEach
                (λ e, e ≠ ReadFile (entry_path dir file) ∧
                      e ≠ Unlink (entry_path dir file))
                (reconcile_entry options) names vars) with (w := w) (r := r)
                (w' := w') as (evs & Htrace & Hall); [| done |].
    { intros n v _. by apply reconcile_entry_emits. }
    exists evs. rewrite Forall_forall in Hall.
    split_and!; [done | |]; intros Hin; by destruct (Hall _ Hin).
Qed.

(** C3.  After a successful run (exit code 0, nothing on stderr) that leaves
    in the build directory a JSON program file [jf] (the last of its class
    in directory order, should there be several) and the file
    [contractStorage.tz], the record of the source has the canonicalized
    JSON of [jf] as [michelson], the raw text of [contractStorage.tz] as
    [initialStorage], the text found at the source path of the request as
    [source], and no entry of a recognized class is left in the
    directory. *)
Theorem successful_run_record sourcePath entryPoint options contracts w
    src l1 jf l2 jraw j st :
  let dir := contracts_build_directory options in
  let o := invocation sourcePath entryPoint options w in
  let after := proc_fs o in
  proc_code o = Some 0 →
  diagnostics o = "" →
  NoDup (files after).*1 →
  dir ∈ dirs after →
  fs_read after sourcePath = Some src →
  fs_list after dir = l1 ++ jf :: l2 →
  classify jf = CompiledJson →
  Forall (λ n, classify n ≠ CompiledJson) l2 →
  (∀ n c, n ∈ l1 → classify n = CompiledJson →
          fs_read after (entry_path dir n) = Some c → is_Some (JSON_parse c)) →
  fs_read after (entry_path dir jf) = Some jraw →
  JSON_parse jraw = Some j →
  "contractStorage.tz" ∈ fs_list after dir →
  fs_read after (entry_path dir "contractStorage.tz") = Some st →
  ∃ w',
    compile_loop [sourcePath] entryPoint options contracts w
    = (inr (inr (contracts ++
          [ {| Contract.contractName := contractName_of sourcePath;
               Contract.abi := [];
               Contract.initialStorage := Some st;
               Contract.sourcePath := sourcePath;
               Contract.source := src;
               Contract.michelson := Some (JSON_stringify j);
               Contract.compiler := compiler |} ])), w') ∧
    ∀ n, n ∈ fs_list (fs w') dir → classify n = Unrecognized.
Proof.
  intros dir o after Hcode Herr Hnd Hdir Hsrc Hlist Hjf Hl2 Hl1 Hjraw Hj
    Hst_in Hst.
  assert (NoDup (fs_list after dir)) as Hnames by by apply fs_list_NoDup.
  destruct (collect_ok options sourcePath (contractName_of sourcePath)
              {| fs := after; pending := [];
                 trace := trace w ++
                          launch_events sourcePath entryPoint options w |} src)
    as (w' & Hrun & Hfiles); [done | done | done | |].
  { intros n Hn Hrec. simpl in Hn |- *.
    change (contracts_build_directory options) with dir in Hn |- *.
    destruct (fs_list_elem _ _ _ Hn) as [c Hc].
    destruct (elem_assoc_is_Some _ _ _ Hc) as [c' Hc'].
    exists c'. split; [done |]. intros Hclass.
    rewrite Hlist in Hn. apply elem_of_app in Hn as [Hn | Hn].
    - by eapply Hl1.
    - apply elem_of_cons in Hn as [-> | Hn].
      + unfold fs_read in Hjraw. rewrite Hjraw in Hc'.
        injection Hc' as <-. by eexists.
      + rewrite Forall_forall in Hl2. by destruct (Hl2 _ Hn). }
  simpl in Hrun, Hfiles.
  change (contracts_build_directory options) with dir in Hrun, Hfiles.
  assert (snd (captured after dir (fs_list after dir) (None, None)) = Some st)
    as Hsnd.
  { apply list_elem_of_split in Hst_in as (k1 & k2 & Hsplit).
    rewrite Hsplit in Hnames |- *.
    apply NoDup_app in Hnames as (_ & _ & [Hk2 _]%NoDup_cons).
    rewrite captured_app, captured_cons, captured_snd_frame by done.
    by rewrite Hst. }
  assert (fst (captured after dir (fs_list after dir) (None, None))
          = Some (JSON_stringify j)) as Hfst.
  { rewrite Hlist.
    rewrite captured_app, captured_cons, captured_fst_frame by done.
    rewrite Hjraw. unfold capture. rewrite Hjf. simpl.
    unfold canonical. by rewrite Hj. }
  rewrite Hsnd, Hfst in Hrun.
  exists w'. split.
  - cbn [compile_loop]. unfold bind. rewrite execSmartPy_run.
    fold o. cbv zeta. rewrite Hcode, Herr. simpl.
    fold after. by rewrite Hrun.
  - intros n Hn. unfold fs_list in Hn.
    apply list_elem_of_omap in Hn as ([p c] & Hin & Hchild).
    simpl in Hchild. rewrite Hfiles in Hin.
    apply list_elem_of_filter in Hin as [Hkeep Hin]. simpl in Hkeep, Hin.
    destruct (decide (classify n = Unrecognized)) as [| Hrec]; [done |].
    exfalso. apply Hkeep. pose proof (child_of_Some _ _ _ Hchild) as ->.
    unfold consumed. apply list_elem_of_fmap. exists n. split; [done |].
    apply list_elem_of_filter. split; [done |].
    unfold fs_list. apply list_elem_of_omap.
    by exists (entry_path dir n, c).
Qed.

(** C2, as the code has it.  Two sources of the same basename do not fail
    the request.  When the loop over the sources completes, that is, every
    invocation resolves and nothing throws while its output is collected,
    [compileAll] calls back with the result object.  Under a logical name
    the object holds the record of the last source of that name in compile
    order, and the record of an earlier source of the same basename is
    overwritten.  The record is the own property of that name; for the name
    [__proto__] it is the prototype of the object, which then has no own
    property of that name. *)
Theorem same_basename_last_record_wins options w cs w' :
  let order := compile_order options in
  let w1 := snd (display (paths options) options w) in
  compile_loop order (entryPoint_of options) (set_paths options order) [] w1
  = (inr (inr cs), w') →
  compileAll options w
  = (inr (Success (aggregate cs) order (Some compiler)), w') ∧
  Contract.sourcePath <$> cs = order ∧
  ∀ pre p post,
    order = pre ++ p :: post →
    Forall (λ q, contractName_of q ≠ contractName_of p) post →
    ∃ c, Contract.sourcePath c = p ∧
         (contractName_of p ≠ "__proto__" →
          aggregate cs !! contractName_of p = Some c) ∧
         (contractName_of p = "__proto__" →
          prototype (aggregate cs) = Some c ∧
          aggregate cs !! "__proto__" = None).
Proof.
  intros order w1 Hloop.
  destruct (compile_loop_records _ _ _ _ _ _ _ Hloop)
    as (new & -> & Hpaths & Hall).
  rewrite app_nil_l in *. split_and!.
  - rewrite compileAll_run. cbv zeta. fold order w1. by rewrite Hloop.
  - done.
  - intros pre p post Horder Hpost. rewrite Horder in Hpaths.
    apply fmap_app_inv in Hpaths as (n1 & n2 & _ & Hn2 & ->).
    symmetry in Hn2.
    apply fmap_cons_inv in Hn2 as (c & n3 & -> & -> & ->).
    apply Forall_app in Hall as [_ [[Hc _] Hn3]%Forall_cons].
    assert (Forall (λ c', Contract.contractName c' ≠ Contract.contractName c)
              n3) as Hlater.
    { rewrite Forall_forall in Hn3. rewrite Forall_forall in Hpost.
      rewrite Forall_forall. intros c' Hc'.
      destruct (Hn3 _ Hc') as [-> _]. rewrite Hc. apply Hpost.
      by apply list_elem_of_fmap_2. }
    exists c. rewrite <- Hc. split_and!; [done | |].
    + intros Hname. by apply aggregate_last.
    + intros Hname. split; [| apply aggregate_no_own_prototype].
      apply aggregate_last_prototype; [done |]. by rewrite <- Hname.
Qed.

(** C4, as the code has it.  When the invocation for a source exits with a
    code other than zero, [compileAll] calls back with an error and no
    result object.  The error text is the captured diagnostics, verbatim,
    then a line feed, then the coloured line
    [Compilation of <sourcePath> failed. See above.] with the source path
    exactly as it was passed in: the path follows the diagnostics.  The
    process of that source is the last one spawned: no later source of the
    request is compiled. *)
Theorem nonzero_exit_short_circuits options w pre p post cs w1 :
  let entryPoint := entryPoint_of options in
  let order := compile_order options in
  let options' := set_paths options order in
  let o := invocation p entryPoint options' w1 in
  order = pre ++ p :: post →
  compile_loop pre entryPoint options' []
    (snd (display (paths options) options w)) = (inr (inr cs), w1) →
  proc_code o ≠ Some 0 →
  ∃ w2,
    compileAll options w
    = (inr (Failure
         (diagnostics o +:+ Str.newline +:+
          colors_red ("Compilation of " +:+ p +:+ " failed. See above."))),
       w2) ∧
    ∃ before,
      trace w2 = trace w1 ++ before ++
                 [Spawn "docker" (docker_args p entryPoint options')] ∧
      filter is_spawn before = [].
Proof.
  intros entryPoint order options' o Horder Hpre Hcode.
  eexists. split.
  - rewrite compileAll_run. cbv zeta. fold order entryPoint options'.
    rewrite Horder, compile_loop_app, Hpre. cbn [compile_loop].
    unfold bind. rewrite execSmartPy_run. cbv zeta. fold o.
    rewrite (code_nonzero_true _ Hcode). simpl. reflexivity.
  - simpl. unfold launch_events. eexists (_ :: _). split; [reflexivity |].
    by destruct (fs_exists _ _).
Qed.

(** C10.  A run that gets past the filter executes the preflight command
    first, and every command or process of a run, however it ends, names
    the image [trufflesuite/smartpy-basic:0.0.1].  When the run succeeds,
    every source in compile order has been compiled by one [docker] process
    whose image token is that tag, and has its record, stamped with the
    constant compiler identity [smartpy],
    [trufflesuite/smartpy-basic:0.0.2]; the records of the result object
    are among these, and the identity is also handed to the callback.  The
    recorded version is never the tag of the image that ran. *)
Theorem recorded_version_differs_from_image options w r w' :
  let matching :=
    filter (λ path, minimatch path SMARTPY_PATTERN = true) (paths options) in
  let order := compile_order (set_paths options matching) in
  matching ≠ [] →
  compileSmartPy options w = (r, w') →
  (∃ evs,
     trace w' = trace w ++
       Exec "docker run --rm -i trufflesuite/smartpy-basic:0.0.1 --help"
       :: evs ∧
     Forall runs_image_001 evs) ∧
  (∀ result contractPaths c,
     r = inr (Success result contractPaths c) →
     ∃ cs,
       result = aggregate cs ∧
       Contract.sourcePath <$> cs = order ∧
       Forall (λ record,
                 Contract.compiler record
                 = {| CompilerId.name := "smartpy";
                      CompilerId.version :=
                        "trufflesuite/smartpy-basic:0.0.2" |}) cs ∧
       (∀ n record,
          result !! n = Some record ∨ prototype result = Some record →
          record ∈ cs) ∧
       c = Some compiler ∧
       filter is_spawn (trace w')
       = filter is_spawn (trace w) ++
         ((λ p, Spawn "docker" (docker_args p (entryPoint_of options) options))
            <$> order)) ∧
  (∀ p, docker_args p (entryPoint_of options) options !! 7%nat
        = Some "trufflesuite/smartpy-basic:0.0.1") ∧
  CompilerId.version compiler ≠ "trufflesuite/smartpy-basic:0.0.1".
Proof.
  intros matching order Hsome Hrun. revert Hrun.
  unfold compileSmartPy. fold matching.
  rewrite bool_decide_eq_false_2
    by (simpl; intros Hlen; by apply nil_length_inv in Hlen).
  unfold bind, checkSmartPy, bind, exec. simpl.
  destruct (exec_outcome _ _).
  { unfold ret. intros [= <- <-]. split_and!; [| done | done | done].
    by exists []. }
  unfold ret. intros Hrun. split_and!; [| | done | done].
  - destruct (compileAll_emits_image _ _ _ _ Hrun) as (evs & Htrace & Hevs).
    exists evs. split; [| done]. rewrite Htrace. simpl.
    by rewrite <- app_assoc.
  - intros result contractPaths c ->. revert Hrun.
    rewrite compileAll_run. cbv zeta.
    change (compile_order (set_paths options matching)) with order.
    destruct (compile_loop _ _ _ [] _) as [[x|[e|cs]] w2] eqn:Hloop;
      [done | done |].
    intros [= <- _ <- <-].
    destruct (compile_loop_records _ _ _ _ _ _ _ Hloop)
      as (new & Hcs & Hpaths & Hall).
    rewrite app_nil_l in Hcs. subst new.
    exists cs. split_and!; [done | done | | | done |].
    + eapply Forall_impl; [exact Hall |]. by intros record [_ ->].
    + intros n record [Hown | Hproto].
      * by eapply aggregate_elem.
      * by apply aggregate_prototype_elem.
    + rewrite (compile_loop_spawns _ _ _ _ _ _ _ Hloop), display_no_spawn.
      simpl. rewrite filter_app.
      rewrite (filter_cons_False _ (Exec _)) by (by intros ?).
      by rewrite filter_nil, app_nil_r.
Qed.

End Claims.

(** ** The properties on a concrete project *)

(** C1 (the code at the failing input).  With [strict] explicitly [false],
    a compiler run that exits with code 0 after writing a warning to stderr
    is still rejected: [execSmartPy] never reads the flag. *)
Theorem strict_false_warning_still_rejects :
  strict (Demo.request (Some false)) = Some false ∧
  proc_code (invocation (host := Demo.host) (oracle := Demo.compiling Demo.warning_run)
               "/proj/contracts/x.py" None (Demo.request (Some false))
               Demo.project) = Some 0 ∧
  fst (execSmartPy (host := Demo.host) (oracle := Demo.compiling Demo.warning_run)
         "/proj/contracts/x.py" None (Demo.request (Some false)) Demo.project)
  = inr (inl ("warning: unused variable" +:+ Str.newline +:+
              Demo.red "Compilation of /proj/contracts/x.py failed. See above.")).
Proof. split_and!; vm_compute; reflexivity. Qed.

(** C2 fails as stated: two sources of the same basename compile to a
    result object with a single record, the one of the source compiled
    last, and no error is raised. *)
Lemma twins_overwrite_silently :
  match fst (compileSmartPy (host := Demo.host) (oracle := Demo.twins_compiling)
               Demo.twins_request Demo.twins) with
  | inr (Success result contractPaths _) =>
      contractPaths = ["/proj/a/foo.py"; "/proj/b/foo.py"] ∧
      Contract.sourcePath <$> result !! "foo" = Some "/proj/b/foo.py" ∧
      size result = 1%nat
  | _ => False
  end.
Proof. vm_compute. split_and!; reflexivity. Qed.

Lemma same_basename_last_record_wins_witness :
  ∃ cs, fst (compileAll (host := Demo.host) (oracle := Demo.twins_compiling)
               Demo.twins_request Demo.twins)
        = inr (Success (aggregate cs)
                 ["/proj/a/foo.py"; "/proj/b/foo.py"] (Some compiler)) ∧
        Contract.sourcePath <$> cs = ["/proj/a/foo.py"; "/proj/b/foo.py"] ∧
        ∃ c, aggregate cs !! "foo" = Some c ∧
             Contract.sourcePath c = "/proj/b/foo.py".
Proof.
  pose (looped := compile_loop (host := Demo.host)
                 (oracle := Demo.twins_compiling)
                 ["/proj/a/foo.py"; "/proj/b/foo.py"] None
                 (set_paths Demo.twins_request
                    ["/proj/a/foo.py"; "/proj/b/foo.py"]) []
                 (snd (display (host := Demo.host)
                         (paths Demo.twins_request)
                         Demo.twins_request Demo.twins))).
  pose (cs := match fst looped with inr (inr cs) => cs | _ => [] end).
  destruct (same_basename_last_record_wins
              (host := Demo.host) (oracle := Demo.twins_compiling)
              Demo.twins_request Demo.twins cs (snd looped))
    as (Hall & Hpaths & Hlast).
  { vm_compute. reflexivity. }
  exists cs. split_and!.
  - rewrite Hall. reflexivity.
  - exact Hpaths.
  - destruct (Hlast ["/proj/a/foo.py"] "/proj/b/foo.py" [])
      as (c & Hsrc & Hown & _); [vm_compute; reflexivity | constructor |].
    exists c. split; [| done]. apply Hown. discriminate.
Defined.

Lemma successful_run_record_witness :
  ∃ w',
    compile_loop (host := Demo.host)
      (oracle := Demo.compiling Demo.good_run)
      ["/proj/contracts/x.py"] None (Demo.request None) [] Demo.project
    = (inr (inr [ {| Contract.contractName := "x";
                     Contract.abi := [];
                     Contract.initialStorage := Some "Unit";
                     Contract.sourcePath := "/proj/contracts/x.py";
                     Contract.source := "import smartpy";
                     Contract.michelson := Some "[1,2]";
                     Contract.compiler := compiler |} ]), w') ∧
    ∀ n, n ∈ fs_list (fs w') "/proj/build" → classify n = Unrecognized.
Proof.
  apply (successful_run_record
           (host := Demo.host) (oracle := Demo.compiling Demo.good_run)
           "/proj/contracts/x.py" None (Demo.request None) [] Demo.project
           "import smartpy" ["contractCode.py"] "contractCode.tz.json"
           ["contractCode.tz"; "contractStorage.tz"; "notes.txt"]
           "[ 1,  2 ]" "[1,2]" "Unit").
  - reflexivity.
  - reflexivity.
  - compute_done.
  - compute_done.
  - reflexivity.
  - reflexivity.
  - reflexivity.
  - compute_done.
  - intros n c Hn Hclass. apply list_elem_of_singleton in Hn as ->.
    discriminate Hclass.
  - reflexivity.
  - reflexivity.
  - compute_done.
  - reflexivity.
Defined.

(** C4 fails as stated: the error text starts with the diagnostics, not
    with the source path. *)
Lemma diagnostics_not_prefixed_by_path :
  match fst (compileSmartPy (host := Demo.host)
               (oracle := Demo.compiling Demo.failing_run)
               (Demo.request None) Demo.project) with
  | inr (Failure error) =>
      Str.startsWith "/proj/contracts/x.py" error = false ∧
      Str.startsWith "SyntaxError: boom" error = true
  | _ => False
  end.
Proof. vm_compute. split; reflexivity. Qed.

Lemma nonzero_exit_short_circuits_witness :
  ∃ w2,
    compileAll (host := Demo.host)
      (oracle := Demo.oracle [("/proj/a/foo.py", Demo.failing_run);
                              ("/proj/b/foo.py", Demo.good_run)] [])
      Demo.twins_request Demo.twins
    = (inr (Failure
         ("SyntaxError: boom" +:+ Str.newline +:+
          Demo.red "Compilation of /proj/a/foo.py failed. See above.")), w2) ∧
    filter is_spawn (trace w2)
    = [Spawn "docker"
         ["run"; "-v"; "/proj:/proj"; "-w"; "/proj"; "--rm"; "-i";
          "trufflesuite/smartpy-basic:0.0.1"; "compile"; "/proj/a/foo.py";
          "foo()"; "/proj/build"]].
Proof.
  destruct (nonzero_exit_short_circuits
              (host := Demo.host)
              (oracle := Demo.oracle [("/proj/a/foo.py", Demo.failing_run);
                                      ("/proj/b/foo.py", Demo.good_run)] [])
              Demo.twins_request Demo.twins [] "/proj/a/foo.py"
              ["/proj/b/foo.py"] []
              (snd (display (host := Demo.host) (paths Demo.twins_request)
                      Demo.twins_request Demo.twins)))
    as (w2 & Hall & before & Htrace & Hbefore).
  - reflexivity.
  - reflexivity.
  - discriminate.
  - exists w2. split; [exact Hall |].
    rewrite Htrace, !filter_app, Hbefore. reflexivity.
Defined.

Lemma necessary_with_empty_stale_set_witness :
  compileSmartPy_necessary (host := Demo.host) (oracle := Demo.oracle [] [])
    (Demo.options [] None None []) Demo.project
  = (inr (Success ∅ [] None), Demo.project) ∧
  compileSmartPy_necessary (host := Demo.host) (oracle := Demo.oracle [] [])
    (Demo.options [] (Some true) None []) Demo.project
  = (inr (Success ∅ [] None), Demo.project).
Proof.
  split; apply (necessary_with_empty_stale_set
                  (host := Demo.host) (oracle := Demo.oracle [] []));
    reflexivity.
Defined.

Lemma unrecognized_entries_untouched_witness :
  let w' :=
    snd (forEach (reconcile_entry (host := Demo.host) (Demo.request None))
           (fs_list (fs Demo.compiled_project) "/proj/build") (None, None)
           Demo.compiled_project) in
  ("/proj/build/notes.txt", "kept") ∈ files (fs w') ∧
  fs_read (fs w') "/proj/build/notes.txt" = Some "kept" ∧
  (ReadFile "/proj/build/notes.txt" ∉ trace w') ∧
  (Unlink "/proj/build/notes.txt" ∉ trace w').
Proof.
  intros w'.
  destruct (unrecognized_entries_untouched (host := Demo.host)
              (Demo.request None)
              (fs_list (fs Demo.compiled_project) "/proj/build")
              (None, None) Demo.compiled_project
              (fst (forEach (reconcile_entry (host := Demo.host)
                               (Demo.request None))
                      (fs_list (fs Demo.compiled_project) "/proj/build")
                      (None, None) Demo.compiled_project))
              w' "notes.txt")
    as (_ & Hin & Hread & evs & Htrace & Hnoread & Hnounlink).
  - reflexivity.
  - apply surjective_pairing.
  - split_and!.
    + apply (Hin "kept"). compute_done.
    + exact (eq_trans Hread eq_refl).
    + rewrite Htrace. exact Hnoread.
    + rewrite Htrace. exact Hnounlink.
Defined.

Lemma build_directory_absent_at_launch_witness :
  fs_exists (fs Demo.fresh_project) "/proj/build" = false ∧
  ∃ w1, ensure_build_directory (Demo.request None) Demo.fresh_project
        = (inr (), w1) ∧
        fs_exists (fs w1) "/proj/build" = false ∧
        pending w1 = ["/proj/build"] ∧
        invocation (host := Demo.host)
          (oracle := Demo.compiling Demo.good_run)
          "/proj/contracts/x.py" None (Demo.request None) Demo.fresh_project
        = spawn_outcome (Oracle := Demo.compiling Demo.good_run) "docker"
            (docker_args (host := Demo.host) "/proj/contracts/x.py" None
               (Demo.request None))
            (fs w1) (pending w1).
Proof.
  split; [reflexivity |].
  apply (build_directory_absent_at_launch
           (host := Demo.host) (oracle := Demo.compiling Demo.good_run)
           "/proj/contracts/x.py" None (Demo.request None)
           Demo.fresh_project).
  reflexivity.
Defined.

Lemma py_substring_is_source_echo_witness :
  let w := Demo.world [("/proj/build/foo.py.tz.json", "[ 1,  2 ]")]
             ["/proj/build"] in
  classify "foo.py.tz.json" = SourceEcho ∧
  reconcile_entry (host := Demo.host) (Demo.request None) "foo.py.tz.json"
    (None, None) w
  = (inr (None, None),
     {| fs := fs_remove (fs w) "/proj/build/foo.py.tz.json";
        pending := [];
        trace := [Unlink "/proj/build/foo.py.tz.json"] |}).
Proof.
  intros w.
  apply (py_substring_is_source_echo (host := Demo.host) (Demo.request None)
           "foo" ".tz.json" (None, None) w "[ 1,  2 ]").
  reflexivity.
Defined.

Lemma recorded_version_differs_from_image_witness :
  ∃ result w' record,
    compileSmartPy (host := Demo.host)
      (oracle := Demo.compiling Demo.good_run) (Demo.request None)
      Demo.project
    = (inr (Success result ["/proj/contracts/x.py"] (Some compiler)), w') ∧
    result !! "x" = Some record ∧
    Contract.sourcePath record = "/proj/contracts/x.py" ∧
    Contract.compiler record
    = {| CompilerId.name := "smartpy";
         CompilerId.version := "trufflesuite/smartpy-basic:0.0.2" |} ∧
    filter is_spawn (trace w')
    = [ Spawn "docker"
          ["run"; "-v"; "/proj:/proj"; "-w"; "/proj"; "--rm"; "-i";
           "trufflesuite/smartpy-basic:0.0.1"; "compile";
           "/proj/contracts/x.py"; "x()"; "/proj/build"] ] ∧
    head (trace w')
    = Some (Exec "docker run --rm -i trufflesuite/smartpy-basic:0.0.1 --help").
Proof.
  pose (ran := compileSmartPy (host := Demo.host)
                 (oracle := Demo.compiling Demo.good_run) (Demo.request None)
                 Demo.project).
  pose (result := match fst ran with
                  | inr (Success m _ _) => m
                  | _ => ∅
                  end).
  assert (ran = (inr (Success result ["/proj/contracts/x.py"]
                        (Some compiler)), snd ran)) as Hran
    by (vm_compute; reflexivity).
  destruct (recorded_version_differs_from_image
              (host := Demo.host) (oracle := Demo.compiling Demo.good_run)
              (Demo.request None) Demo.project _ _
              ltac:(vm_compute; discriminate) Hran)
    as ((evs & Htrace & _) & Hsuccess & _ & _).
  destruct (Hsuccess _ _ _ eq_refl)
    as (cs & _ & _ & Hstamp & Hmember & _ & Hspawns).
  assert (∃ record, result !! "x" = Some record ∧
                    Contract.sourcePath record = "/proj/contracts/x.py")
    as (record & Hx & Hsource)
    by (vm_compute; eexists; split; reflexivity).
  exists result, (snd ran), record. split_and!.
  - exact Hran.
  - exact Hx.
  - exact Hsource.
  - rewrite Forall_forall in Hstamp. apply Hstamp.
    apply (Hmember "x"). by left.
  - exact Hspawns.
  - by rewrite Htrace.
Defined.

(** ** Further properties of the adapter *)

Lemma filter_none {A} (P : A → Prop) `{∀ x, Decision (P x)} (l : list A) :
  Forall (λ x, ¬ P x) l → filter P l = [].
Proof.
  induction 1 as [|x l Hx _ IH]; [done |].
  by rewrite filter_cons_False.
Qed.

Lemma ltb_true_le (y x : string) : Str.ltb y x = true → String.le y x.
Proof.
  unfold Str.ltb, String.le, String.leb.
  by destruct (String.compare y x).
Qed.

Lemma ltb_false_le (y x : string) : Str.ltb y x = false → String.le x y.
Proof.
  unfold Str.ltb, String.le, String.leb.
  rewrite (String.compare_antisym x y).
  by destruct (String.compare y x).
Qed.

Lemma sort_insert_sorted (x : string) (l : list string) :
  StronglySorted String.le l → StronglySorted String.le (sort_insert x l).
Proof.
  induction l as [|y l IH]; intros Hl; simpl.
  - repeat constructor.
  - apply StronglySorted_cons in Hl as [Hy Hl].
    destruct (Str.ltb y x) eqn:E.
    + apply StronglySorted_cons. split; [| by apply IH].
      rewrite sort_insert_perm. constructor; [by apply ltb_true_le | done].
    + apply ltb_false_le in E.
      apply StronglySorted_cons. split; [| by apply StronglySorted_cons].
      constructor; [done |].
      eapply Forall_impl; [exact Hy |]. intros z Hz. by etrans.
Qed.

Lemma sort_sorted (l : list string) : StronglySorted String.le (sort l).
Proof.
  induction l as [|x l IH]; [constructor |].
  unfold sort. simpl. fold (sort l). by apply sort_insert_sorted.
Qed.

Lemma includes_tz_json_tz (f : string) :
  Str.includes ".tz.json" f = true → Str.includes ".tz" f = true.
Proof.
  rewrite !includes_spec. intros (a & b & ->).
  exists a, (".json" +:+ b). reflexivity.
Qed.

Lemma replace_backslashes_id (s : string) :
  Str.includes (String Str.backslash EmptyString) s = false →
  Str.replace_backslashes s = s.
Proof.
  induction s as [|c s IH]; [done |].
  cbn [Str.includes Str.startsWith Str.replace_backslashes].
  rewrite Ascii.eqb_sym.
  destruct (Ascii.eqb c Str.backslash); [done |].
  simpl. intros Hs. by rewrite IH.
Qed.

Lemma forEach_app {A S} (f : A → S → M S) (l1 l2 : list A) (s : S) (w : World) :
  forEach f (l1 ++ l2) s w
  = match forEach f l1 s w with
    | (inr s1, w1) => forEach f l2 s1 w1
    | thrown => thrown
    end.
Proof.
  revert s w. induction l1 as [|a l1 IH]; intros s w; [done |].
  cbn [forEach app]. unfold bind.
  destruct (f a s w) as [[x|s1] w1]; [done | apply IH].
Qed.

Lemma forEach_log {A} (g : A → string) (l : list A) (w : World) :
  forEach (λ a (_ : unit), log (g a)) l () w
  = (inr (), {| fs := fs w; pending := pending w;
                trace := trace w ++ ((λ a, Log (g a)) <$> l) |}).
Proof.
  revert w. induction l as [|a l IH]; intros w.
  - destruct w. simpl. unfold ret. by rewrite app_nil_r.
  - cbn [forEach]. unfold bind, log. rewrite IH. simpl.
    by rewrite <- app_assoc.
Qed.

Section Further.
Context {host : Host} {oracle : Oracle}.

(** X1.  When the preflight command fails, [compileSmartPy] calls back with
    the red headline, a line feed and the stderr of the command.  The one
    event of the run is the preflight itself: nothing is compiled and the
    file system is not touched. *)
Theorem preflight_failure_aborts options w stderr :
  filter (λ path, minimatch path SMARTPY_PATTERN = true) (paths options)
    ≠ [] →
  exec_outcome "docker run --rm -i trufflesuite/smartpy-basic:0.0.1 --help"
    (fs w) = Some stderr →
  compileSmartPy options w
  = (inr (Failure (colors_red "Error executing SmartPy-Basic:" +:+
                   Str.newline +:+ stderr)),
     emit (Exec "docker run --rm -i trufflesuite/smartpy-basic:0.0.1 --help")
       w).
Proof.
  intros Hsome Hfail. unfold compileSmartPy. simpl.
  rewrite bool_decide_eq_false_2.
  - unfold bind, checkSmartPy, bind, exec. by rewrite Hfail.
  - intros Hlen. by apply nil_length_inv in Hlen.
Qed.

(** X2.  When no path of the request matches the SmartPy pattern,
    [compileSmartPy] calls back with an empty result and an empty path list
    and does nothing else: not even the preflight runs. *)
Theorem no_matching_path_no_preflight options w :
  Forall (λ path, minimatch path SMARTPY_PATTERN ≠ true) (paths options) →
  compileSmartPy options w = (inr (Success ∅ [] None), w).
Proof.
  intros Hnone. unfold compileSmartPy. simpl.
  by rewrite filter_none.
Qed.

(** X3.  An error of the source discovery, or of the profiler, is handed to
    the callback as it is, before anything is executed: the world is left
    unchanged.  Both are asked about the contracts directory joined with
    the SmartPy pattern. *)
Theorem collaborator_errors_are_passed_on options w err :
  (find_contracts (path_join (contracts_directory options) SMARTPY_PATTERN)
     (fs w) = inl err →
   compileSmartPy_all options w = (inr (Failure err), w)) ∧
  (Profiler_updated
     (with_contracts_directory options
        (path_join (contracts_directory options) SMARTPY_PATTERN))
     (fs w) = inl err →
   compileSmartPy_necessary options w = (inr (Failure err), w)).
Proof.
  split; intros Herr.
  - unfold compileSmartPy_all, compile_all, updateContractsDirectory. simpl.
    by rewrite Herr.
  - unfold compileSmartPy_necessary, compile_necessary,
      updateContractsDirectory.
    by rewrite Herr.
Qed.

(** X4.  [compile.display] never fails and never touches the file system.
    A quiet request is left as it is.  Otherwise the paths come back
    sorted, and one line per path is logged, in sorted order. *)
Theorem display_sorts_and_logs paths options w :
  display paths options w
  = if bool_decide (quiet options = Some true) then (inr paths, w)
    else (inr (sort paths),
          {| fs := fs w; pending := pending w;
             trace := trace w ++
               ((λ p, Log (compiling_line options p)) <$> sort paths) |}).
Proof.
  unfold display. case_bool_decide; [done |]. cbn [negb].
  unfold bind.
  pose proof (forEach_log (compiling_line options) (sort paths) w) as Hlog.
  unfold compiling_line in Hlog |- *. cbv zeta. by rewrite Hlog.
Qed.

(** X5.  The paths [compileAll] hands back to the callback are the paths of
    the request in compile order: a rearrangement of them, the same list
    for a quiet request, and in ascending order of code units otherwise,
    whatever order the request had. *)
Theorem echoed_paths_are_sorted options :
  (∀ w result contractPaths c w',
     compileAll options w = (inr (Success result contractPaths c), w') →
     contractPaths = compile_order options) ∧
  compile_order options ≡ₚ paths options ∧
  (quiet options = Some true → compile_order options = paths options) ∧
  (quiet options ≠ Some true →
   StronglySorted String.le (compile_order options)).
Proof.
  split_and!.
  - intros w result contractPaths c w'. rewrite compileAll_run. cbv zeta.
    destruct (compile_loop _ _ _ [] _) as [[x|[e|cs]] w2]; [done | done |].
    by intros [= _ <- _ _].
  - unfold compile_order. destruct (negb _); [apply sort_perm | done].
  - intros Hq. unfold compile_order.
    by rewrite bool_decide_eq_true_2.
  - intros Hq. unfold compile_order.
    rewrite bool_decide_eq_false_2 by done. apply sort_sorted.
Qed.

(** X6.  Of the request, [execSmartPy] reads the working directory and the
    build directory and nothing else: two requests that agree on these two
    fields give the same invocation, whatever their strict and quiet flags,
    paths and contracts directory are. *)
Theorem execSmartPy_reads_two_fields sourcePath entryPoint options1 options2 w :
  working_directory options1 = working_directory options2 →
  contracts_build_directory options1 = contracts_build_directory options2 →
  execSmartPy sourcePath entryPoint options1 w
  = execSmartPy sourcePath entryPoint options2 w.
Proof.
  intros Hwd Hbuild. rewrite !execSmartPy_run.
  unfold invocation, launch_pending, launch_events, docker_args.
  by rewrite Hwd, Hbuild.
Qed.

(** X7.  When the build directory exists, [execSmartPy] asks for no
    creation: it checks the directory, spawns the compiler, and the process
    starts with no more creations under way than before. *)
Theorem existing_build_directory_not_recreated sourcePath entryPoint options w :
  fs_exists (fs w) (contracts_build_directory options) = true →
  invocation sourcePath entryPoint options w
  = spawn_outcome "docker" (docker_args sourcePath entryPoint options)
      (fs w) (pending w) ∧
  trace (snd (execSmartPy sourcePath entryPoint options w))
  = trace w ++ [ ExistsSync (contracts_build_directory options);
                 Spawn "docker" (docker_args sourcePath entryPoint options) ].
Proof.
  intros Hexists. split.
  - unfold invocation, launch_pending. by rewrite Hexists.
  - rewrite execSmartPy_run. simpl. unfold launch_events.
    by rewrite Hexists.
Qed.

(** X8.  On a host whose normalized paths hold no backslash, the source
    path token of the compiler command is the normalized source path,
    unchanged. *)
Theorem backslash_free_path_passed_unchanged sourcePath entryPoint options :
  Str.includes (String Str.backslash EmptyString) (path_normalize sourcePath)
    = false →
  docker_args sourcePath entryPoint options !! 9%nat
  = Some (path_normalize sourcePath).
Proof.
  intros Hclean. unfold docker_args. simpl.
  by rewrite replace_backslashes_id.
Qed.

Lemma reconcile_entry_admits (P : Event → Prop) options file vars :
  (∀ p, P (ReadFile p)) →
  (∀ n, classify n ≠ Unrecognized →
        P (Unlink (entry_path (contracts_build_directory options) n))) →
  emits P (reconcile_entry options file vars).
Proof.
  intros Hread Hunlink.
  destruct (decide (classify file = Unrecognized)) as [Hu | Hrec].
  { intros w r w'. rewrite reconcile_entry_unrecognized by done.
    intros [= <- <-]. exists []. by rewrite app_nil_r. }
  specialize (Hunlink file Hrec). unfold reconcile_entry.
  repeat first
    [ apply emits_ret | apply emits_throw
    | by apply emits_unlinkSync
    | by apply emits_readFileSync
    | apply emits_bind; [| intros ?]
    | match goal with
      | |- emits _ (if ?b then _ else _) => destruct b
      | |- emits _ (match ?o with _ => _ end) => destruct o
      end ].
Qed.

Lemma collect_admits (P : Event → Prop) sourcePath contractName options :
  (∀ p, P (ReadFile p)) →
  (∀ d, P (ReadDir d)) →
  (∀ n, classify n ≠ Unrecognized →
        P (Unlink (entry_path (contracts_build_directory options) n))) →
  emits P (collect sourcePath contractName options).
Proof.
  intros Hread Hdir Hunlink.
  unfold collect.
  apply emits_bind; [by apply emits_readFileSync | intros src].
  apply emits_bind; [by apply emits_readdirSync | intros names].
  apply emits_bind; [| intros vars; apply emits_ret].
  apply emits_forEach. intros file vars _. by apply reconcile_entry_admits.
Qed.

Lemma execSmartPy_admits P sourcePath entryPoint options :
  admits P (contracts_build_directory options) →
  emits P (execSmartPy sourcePath entryPoint options).
Proof.
  intros (_ & _ & Hexists & Hmkdirp & _ & Hspawn & _) w r w'.
  rewrite execSmartPy_run. cbv zeta. intros [= <- <-]. simpl.
  eexists. split; [reflexivity |]. unfold launch_events.
  destruct (fs_exists _ _); repeat constructor; done.
Qed.

Lemma compile_loop_admits P todo entryPoint options contracts :
  admits P (contracts_build_directory options) →
  emits P (compile_loop todo entryPoint options contracts).
Proof.
  intros Hadm. revert contracts.
  induction todo as [|p todo IH]; intros contracts; cbn [compile_loop].
  - apply emits_ret.
  - apply emits_bind; [by apply execSmartPy_admits |].
    intros [err | name]; [apply emits_ret |].
    apply emits_bind; [| intros c; apply IH].
    destruct Hadm as (? & ? & _ & _ & _ & _ & ?). by apply collect_admits.
Qed.

Lemma compileAll_admits P options :
  admits P (contracts_build_directory options) →
  emits P (compileAll options).
Proof.
  intros Hadm. pose proof Hadm as (_ & _ & _ & _ & Hlog & _).
  unfold compileAll. apply emits_bind.
  { unfold display. destruct (negb _); [| apply emits_ret].
    apply emits_bind; [| intros ?; apply emits_ret].
    apply emits_forEach. intros a [] _. by apply emits_log. }
  intros order. apply emits_bind; [by apply compile_loop_admits |].
  intros [e | cs]; apply emits_ret.
Qed.

Lemma aggregate_is_Some (cs : list Contract.t) (n : string) :
  is_Some (aggregate cs !! n)
  ↔ n ∈ Contract.contractName <$> cs ∧ n ≠ "__proto__".
Proof.
  induction cs as [|x cs IH] using rev_ind.
  - unfold aggregate, lookup, ResultObject_lookup. simpl.
    rewrite lookup_empty, elem_of_nil.
    split; [by intros [? ?] | by intros [? _]].
  - rewrite aggregate_snoc, fmap_app, elem_of_app. simpl.
    rewrite list_elem_of_singleton.
    destruct (decide (Contract.contractName x = "__proto__")) as [Hp | Hp].
    { rewrite assign_lookup_ne by (by left). rewrite IH.
      split; [intros [? ?]; by split; [left |] |].
      intros [[? | ->] Hn]; [done | by rewrite Hp in Hn]. }
    destruct (decide (Contract.contractName x = n)) as [<- | Hne].
    + rewrite assign_lookup_eq by done.
      split; [by split; [right |] | by eexists].
    + rewrite assign_lookup_ne by (by right). rewrite IH.
      split; [intros [? ?]; by split; [left |] |].
      intros [[? | ->] Hn]; done.
Qed.

Lemma aggregate_prototype_is_Some (cs : list Contract.t) :
  is_Some (prototype (aggregate cs))
  ↔ "__proto__" ∈ Contract.contractName <$> cs.
Proof.
  induction cs as [|x cs IH] using rev_ind.
  - simpl. rewrite elem_of_nil. split; [by intros [? ?] | done].
  - rewrite aggregate_snoc, fmap_app, elem_of_app. simpl.
    rewrite list_elem_of_singleton.
    destruct (decide (Contract.contractName x = "__proto__")) as [Hp | Hp].
    + rewrite Hp, assign_prototype_eq. split; [by right | by eexists].
    + rewrite assign_prototype_ne by done. rewrite IH.
      split; [by left | intros [? | ?]; done].
Qed.

Lemma aggregate_size (cs : list Contract.t) :
  NoDup (Contract.contractName <$> cs) →
  size (aggregate cs)
  = length (filter (λ n, n ≠ "__proto__") (Contract.contractName <$> cs)).
Proof.
  induction cs as [|x cs IH] using rev_ind; intros Hnd.
  - unfold aggregate, size, ResultObject_size. simpl. apply map_size_empty.
  - rewrite fmap_app in Hnd |- *.
    apply NoDup_app in Hnd as (Hcs & Hx & _).
    rewrite aggregate_snoc, filter_app, length_app, <- IH by done.
    simpl. unfold assign, size, ResultObject_size.
    destruct (decide (Contract.contractName x = "__proto__")) as [Hp | Hp].
    + rewrite filter_cons_False by (by intros ?). simpl. lia.
    + rewrite filter_cons_True by done. simpl.
      rewrite map_size_insert_None; [lia |].
      apply eq_None_not_Some.
      change (¬ is_Some (aggregate cs !! Contract.contractName x)).
      rewrite aggregate_is_Some. intros [Hin _].
      apply (Hx _ Hin). simpl. left.
Qed.

Lemma forEach_unrecognized options names vars w :
  Forall (λ n, classify n = Unrecognized) names →
  forEach (reconcile_entry options) names vars w = (inr vars, w).
Proof.
  induction 1 as [|n names Hn _ IH]; [done |].
  cbn [forEach]. unfold bind.
  by rewrite reconcile_entry_unrecognized.
Qed.

(** What [collect] leaves in the build directory is of no recognized
    class. *)
Lemma filtered_listing_unrecognized (f f' : FS) (dir : string) :
  files f' = filter (λ e, fst e ∉ consumed dir (fs_list f dir)) (files f) →
  Forall (λ n, classify n = Unrecognized) (fs_list f' dir).
Proof.
  intros Hfiles. apply Forall_forall. intros n Hn. unfold fs_list in Hn.
  apply list_elem_of_omap in Hn as ([p c] & Hin & Hchild).
  simpl in Hchild. rewrite Hfiles in Hin.
  apply list_elem_of_filter in Hin as [Hkeep Hin]. simpl in Hkeep, Hin.
  destruct (decide (classify n = Unrecognized)) as [| Hrec]; [done |].
  exfalso. apply Hkeep. pose proof (child_of_Some _ _ _ Hchild) as ->.
  unfold consumed. apply list_elem_of_fmap. exists n. split; [done |].
  apply list_elem_of_filter. split; [done |].
  unfold fs_list. apply list_elem_of_omap.
  by exists (entry_path dir n, c).
Qed.

(** On a file system with one file per path, every listed entry can be
    read. *)
Lemma listed_entries_readable (f : FS) (dir n : string) :
  n ∈ fs_list f dir → is_Some (fs_read f (entry_path dir n)).
Proof.
  intros Hn. destruct (fs_list_elem _ _ _ Hn) as [c Hc].
  by eapply elem_assoc_is_Some.
Qed.

(** X9.  A request whose sources all compile spawns one compiler process
    per source, in compile order, each with the arguments of its source,
    and no other process. *)
Theorem one_spawn_per_source_in_order todo entryPoint options contracts w cs w' :
  compile_loop todo entryPoint options contracts w = (inr (inr cs), w') →
  filter is_spawn (trace w')
  = filter is_spawn (trace w) ++
    ((λ p, Spawn "docker" (docker_args p entryPoint options)) <$> todo).
Proof.
  revert contracts w. induction todo as [|p todo IH]; intros contracts w.
  - intros [= _ <-]. by rewrite app_nil_r.
  - cbn [compile_loop]. unfold bind. rewrite execSmartPy_run. cbv zeta.
    destruct (code_nonzero _ || negb _); [done |].
    destruct (collect p _ options _) as [[x|c] w2] eqn:Hcollect; [done |].
    intros Hrest. rewrite (IH _ _ Hrest).
    destruct (collect_admits (λ e, ¬ is_spawn e) p (contractName_of p)
                options) with (w := {| fs := proc_fs (invocation p entryPoint options w);
             pending := [];
             trace := trace w ++ launch_events p entryPoint options w |})
             (r := @inr Exn _ c) (w' := w2)
      as (evs & -> & Hevs);
      [by intros ? [] | by intros ? [] | by intros ? ? [] | done |].
    simpl. rewrite !filter_app, (filter_none _ evs Hevs), app_nil_r.
    rewrite <- app_assoc. f_equal. unfold launch_events.
    rewrite filter_cons_False by (by intros ?). rewrite filter_app.
    by destruct (fs_exists _ _).
Qed.

(** X10.  The own keys of the result object are the logical names of the
    compiled sources, except [__proto__]: a source of that name has no own
    key, and the object has a record as its prototype exactly when some
    source has that name. *)
Theorem result_keys_are_logical_names todo entryPoint options w cs w' n :
  compile_loop todo entryPoint options [] w = (inr (inr cs), w') →
  (is_Some (aggregate cs !! n)
   ↔ n ∈ contractName_of <$> todo ∧ n ≠ "__proto__") ∧
  (is_Some (prototype (aggregate cs))
   ↔ "__proto__" ∈ contractName_of <$> todo).
Proof.
  intros Hloop.
  destruct (compile_loop_records _ _ _ _ _ _ _ Hloop)
    as (new & -> & <- & Hall).
  rewrite app_nil_l, aggregate_is_Some, aggregate_prototype_is_Some.
  assert (Contract.contractName <$> new
          = contractName_of <$> (Contract.sourcePath <$> new)) as ->;
    [| done].
  rewrite <- list_fmap_compose. apply Forall_fmap_ext_1.
  eapply Forall_impl; [exact Hall |]. by intros c [-> _].
Qed.

(** X11.  When the logical names of the sources are pairwise distinct,
    nothing is overwritten: every record is in the result object, as the
    own property of its name or, for the name [__proto__], as the
    prototype, and the object has one own key per source whose name is not
    [__proto__]. *)
Theorem distinct_names_keep_every_record todo entryPoint options w cs w' :
  compile_loop todo entryPoint options [] w = (inr (inr cs), w') →
  NoDup (contractName_of <$> todo) →
  (∀ c, c ∈ cs →
     (Contract.contractName c ≠ "__proto__" →
      aggregate cs !! Contract.contractName c = Some c) ∧
     (Contract.contractName c = "__proto__" →
      prototype (aggregate cs) = Some c)) ∧
  size (aggregate cs)
  = length (filter (λ n, n ≠ "__proto__") (contractName_of <$> todo)).
Proof.
  intros Hloop Hnd.
  destruct (compile_loop_records _ _ _ _ _ _ _ Hloop)
    as (new & -> & <- & Hall).
  rewrite app_nil_l.
  assert (Contract.contractName <$> new
          = contractName_of <$> (Contract.sourcePath <$> new)) as Hnames.
  { rewrite <- list_fmap_compose. apply Forall_fmap_ext_1.
    eapply Forall_impl; [exact Hall |]. by intros c [-> _]. }
  rewrite <- Hnames in Hnd |- *. split.
  - intros c Hc. apply list_elem_of_split in Hc as (l1 & l2 & ->).
    rewrite fmap_app, fmap_cons in Hnd.
    apply NoDup_app in Hnd as (_ & _ & [Hc _]%NoDup_cons).
    assert (Forall (λ c', Contract.contractName c' ≠ Contract.contractName c)
              l2) as Hlater.
    { apply Forall_forall. intros c' Hc' Heq. apply Hc. rewrite <- Heq.
      by apply list_elem_of_fmap_2. }
    split; intros Hname.
    + by apply aggregate_last.
    + apply aggregate_last_prototype; [done |]. by rewrite <- Hname.
  - by apply aggregate_size.
Qed.


(** X13.  A JSON program file that does not parse ends the pass with a
    [SyntaxError] right after it was read: the file itself is not unlinked
    and the entries listed after it are neither read nor unlinked. *)
Theorem unparsable_program_aborts_pass options l1 jf l2 vars w vars1 w1 c :
  let dir := contracts_build_directory options in
  forEach (reconcile_entry options) l1 vars w = (inr vars1, w1) →
  Str.includes ".py" jf = false →
  Str.includes ".tz.json" jf = true →
  fs_read (fs w1) (entry_path dir jf) = Some c →
  JSON_parse c = None →
  forEach (reconcile_entry options) (l1 ++ jf :: l2) vars w
  = (inl (SyntaxError c), emit (ReadFile (entry_path dir jf)) w1).
Proof.
  intros dir Hl1 Hpy Hjson Hread Hparse.
  rewrite forEach_app, Hl1. cbn [forEach]. unfold bind.
  unfold reconcile_entry. rewrite Hpy, Hjson. fold dir.
  unfold bind, readFileSync. by rewrite Hread, Hparse.
Qed.








(** X15.  After a rejected invocation nothing is reconciled: the loop stops
    with the failure message, the file system is as the compiler process
    left it, artifacts included, and nothing was read or unlinked. *)
Theorem rejected_invocation_is_not_reconciled p rest entryPoint options
    contracts w :
  let o := invocation p entryPoint options w in
  proc_code o ≠ Some 0 ∨ diagnostics o ≠ EmptyString →
  compile_loop (p :: rest) entryPoint options contracts w
  = (inr (inl (failure_message p (diagnostics o))),
     {| fs := proc_fs o;
        pending := [];
        trace := trace w ++ launch_events p entryPoint options w |}).
Proof.
  intros o Hfail. cbn [compile_loop]. unfold bind.
  pose proof (execSmartPy_rejects p entryPoint options w Hfail) as Hrej.
  rewrite execSmartPy_run in Hrej |- *. cbv zeta in Hrej |- *.
  fold o in Hrej |- *. simpl in Hrej.
  by destruct (code_nonzero (proc_code o) || _); simplify_eq.
Qed.

(** X16.  Reconciliation is idempotent: once [collect] has gone through the
    build directory, a second pass over what is left reads nothing,
    unlinks nothing and captures nothing. *)
Theorem second_pass_finds_nothing options sourcePath contractName w src :
  let dir := contracts_build_directory options in
  let names := fs_list (fs w) dir in
  fs_read (fs w) sourcePath = Some src →
  dir ∈ dirs (fs w) →
  NoDup (files (fs w)).*1 →
  (∀ n c, n ∈ names → classify n = CompiledJson →
          fs_read (fs w) (entry_path dir n) = Some c →
          is_Some (JSON_parse c)) →
  ∃ c w',
    collect sourcePath contractName options w = (inr c, w') ∧
    ∀ vars, forEach (reconcile_entry options) (fs_list (fs w') dir) vars w'
            = (inr vars, w').
Proof.
  intros dir names Hsrc Hdir Hnd Hparse.
  destruct (collect_ok options sourcePath contractName w src)
    as (w' & Hrun & Hfiles); [done | done | by apply fs_list_NoDup | |].
  { intros n Hn _. destruct (listed_entries_readable _ _ _ Hn) as [c Hc].
    exists c. split; [done |]. intros Hjson. by eapply Hparse. }
  eexists _, w'. split; [exact Hrun |]. intros vars.
  apply forEach_unrecognized. by eapply filtered_listing_unrecognized.
Qed.

(** X17.  When the source file cannot be read after a successful
    invocation, the run ends in the [ENOENT] of [readFileSync]: no record
    is built, the build directory is not even listed, and no later source
    is compiled. *)
Theorem unreadable_source_throws p rest entryPoint options contracts w :
  let o := invocation p entryPoint options w in
  proc_code o = Some 0 →
  diagnostics o = EmptyString →
  fs_read (proc_fs o) p = None →
  compile_loop (p :: rest) entryPoint options contracts w
  = (inl (ENOENT p),
     {| fs := proc_fs o;
        pending := [];
        trace := (trace w ++ launch_events p entryPoint options w) ++
                 [ReadFile p] |}).
Proof.
  intros o Hcode Herr Hread. cbn [compile_loop]. unfold bind.
  rewrite execSmartPy_run. cbv zeta. fold o. rewrite Hcode, Herr. simpl.
  unfold collect, bind, readFileSync. simpl. by rewrite Hread.
Qed.

(** X18.  When the build directory does not exist after a successful
    invocation, the run ends in the [ENOENT] of [readdirSync], after the
    source was read: no record is built and no later source is compiled. *)
Theorem missing_build_directory_throws p rest entryPoint options contracts w
    src :
  let o := invocation p entryPoint options w in
  proc_code o = Some 0 →
  diagnostics o = EmptyString →
  fs_read (proc_fs o) p = Some src →
  contracts_build_directory options ∉ dirs (proc_fs o) →
  compile_loop (p :: rest) entryPoint options contracts w
  = (inl (ENOENT (contracts_build_directory options)),
     {| fs := proc_fs o;
        pending := [];
        trace := (trace w ++ launch_events p entryPoint options w) ++
                 [ReadFile p; ReadDir (contracts_build_directory options)] |}).
Proof.
  intros o Hcode Herr Hread Hdir. cbn [compile_loop]. unfold bind.
  rewrite execSmartPy_run. cbv zeta. fold o. rewrite Hcode, Herr. simpl.
  unfold collect, bind, readFileSync, readdirSync. simpl. rewrite Hread.
  simpl. rewrite bool_decide_eq_false_2 by done.
  unfold emit. simpl. by rewrite <- app_assoc.
Qed.

(** X19.  When some path matches the pattern, the preflight command is the
    first thing a run does, and it is executed once: no other command is
    executed, however many sources are compiled and however the run
    ends. *)
Theorem preflight_runs_first_and_once options w r w' :
  filter (λ path, minimatch path SMARTPY_PATTERN = true) (paths options)
    ≠ [] →
  compileSmartPy options w = (r, w') →
  ∃ evs,
    trace w' = trace w ++
      Exec "docker run --rm -i trufflesuite/smartpy-basic:0.0.1 --help"
      :: evs ∧
    Forall (λ e, ¬ is_exec e) evs.
Proof.
  intros Hsome. unfold compileSmartPy. simpl.
  rewrite bool_decide_eq_false_2
    by (intros Hlen; by apply nil_length_inv in Hlen).
  unfold bind, checkSmartPy, bind, exec. simpl.
  destruct (exec_outcome _ _).
  { intros [= <- <-]. by exists []. }
  unfold ret. intros Hrun.
  assert (admits (λ e, ¬ is_exec e) (contracts_build_directory options))
    as Hadm by (split_and!; first [by intros ? [] | by intros ? ? []]).
  destruct (compileAll_admits _ (set_paths options _) Hadm _ _ _ Hrun)
    as (evs & Htrace & Hevs).
  exists evs. split; [| done]. rewrite Htrace. simpl.
  by rewrite <- app_assoc.
Qed.

(** X20.  Which entries survive the reconciler is decided by two
    substrings.  An entry whose name contains [.py] or [.tz] anywhere is
    removed from the build directory, and no other file is; an entry whose
    name contains neither is left alone. *)
Theorem names_with_py_or_tz_are_removed options f vars w :
  let p := entry_path (contracts_build_directory options) f in
  (Str.includes ".py" f = false → Str.includes ".tz" f = false →
   reconcile_entry options f vars w = (inr vars, w)) ∧
  (∀ c,
     Str.includes ".py" f = true ∨ Str.includes ".tz" f = true →
     fs_read (fs w) p = Some c →
     (classify f = CompiledJson → is_Some (JSON_parse c)) →
     ∃ vars' w',
       reconcile_entry options f vars w = (inr vars', w') ∧
       fs_read (fs w') p = None ∧
       ∀ q, q ≠ p → fs_read (fs w') q = fs_read (fs w) q).
Proof.
  intros p. split.
  - intros Hpy Htz. apply reconcile_entry_unrecognized. unfold classify.
    rewrite Hpy, Htz.
    destruct (Str.includes ".tz.json" f) eqn:E; [| done].
    apply includes_tz_json_tz in E. congruence.
  - intros c Hname Hread Hjson.
    assert (classify f ≠ Unrecognized) as Hrec.
    { unfold classify. destruct (Str.includes ".py" f); [done |].
      destruct (Str.includes ".tz.json" f); [done |].
      destruct Hname as [? | ->]; done. }
    destruct (reconcile_entry_ok options f vars w c Hrec Hread Hjson)
      as (w' & Hrun & Hfs & _).
    exists (capture f c vars), w'. split_and!; [done | |].
    + rewrite Hfs. apply assoc_remove_eq.
    + intros q Hq. rewrite Hfs. by apply assoc_remove_ne.
Qed.

(** X21.  Raw program output other than [contractStorage.tz] is deleted
    without being read: the two variables keep their values and the only
    event is the unlink. *)
Theorem other_raw_output_deleted_uncaptured options f vars w c :
  let p := entry_path (contracts_build_directory options) f in
  Str.includes ".py" f = false →
  Str.includes ".tz.json" f = false →
  Str.includes ".tz" f = true →
  f ≠ "contractStorage.tz" →
  fs_read (fs w) p = Some c →
  reconcile_entry options f vars w
  = (inr vars,
     {| fs := fs_remove (fs w) p;
        pending := pending w;
        trace := trace w ++ [Unlink p] |}).
Proof.
  intros p Hpy Hjson Htz Hname Hread.
  unfold reconcile_entry. rewrite Hpy, Hjson, Htz. fold p.
  rewrite (proj2 (String.eqb_neq f "contractStorage.tz")) by done.
  unfold bind, ret, unlinkSync. by rewrite Hread.
Qed.

End Further.

(** ** The further properties on concrete projects *)

Lemma preflight_failure_aborts_witness :
  compileSmartPy (host := Demo.host) (oracle := Cases.no_docker)
    (Demo.request None) Demo.project
  = (inr (Failure (Demo.red "Error executing SmartPy-Basic:" +:+
                   Str.newline +:+ "docker: command not found")),
     emit (Exec "docker run --rm -i trufflesuite/smartpy-basic:0.0.1 --help")
       Demo.project).
Proof.
  apply (preflight_failure_aborts (host := Demo.host)
           (oracle := Cases.no_docker) (Demo.request None) Demo.project).
  - compute_done.
  - reflexivity.
Defined.

Lemma no_matching_path_no_preflight_witness :
  compileSmartPy (host := Demo.host) (oracle := Cases.no_docker)
    (Demo.options ["/proj/contracts/x.sol"; "/proj/README.md"] None None [])
    Demo.project
  = (inr (Success ∅ [] None), Demo.project).
Proof.
  apply (no_matching_path_no_preflight (host := Demo.host)
           (oracle := Cases.no_docker)).
  compute_done.
Defined.

Lemma collaborator_errors_are_passed_on_witness :
  compileSmartPy_all (host := Demo.host) (oracle := Cases.no_contracts)
    (Demo.request None) Demo.project
  = (inr (Failure "ENOENT: /proj/contracts"), Demo.project) ∧
  compileSmartPy_necessary (host := Demo.host) (oracle := Cases.no_contracts)
    (Demo.request None) Demo.project
  = (inr (Failure "ENOENT: /proj/contracts"), Demo.project).
Proof.
  destruct (collaborator_errors_are_passed_on (host := Demo.host)
              (oracle := Cases.no_contracts) (Demo.request None)
              Demo.project "ENOENT: /proj/contracts") as [Hall Hnecessary].
  split; [apply Hall | apply Hnecessary]; reflexivity.
Defined.

Lemma echoed_paths_are_sorted_witness :
  compile_order Cases.unsorted_request
  = ["/proj/a/bar.py"; "/proj/b/foo.py"] ∧
  StronglySorted String.le (compile_order Cases.unsorted_request) ∧
  compile_order (Demo.options ["/proj/b/foo.py"; "/proj/a/bar.py"]
                   (Some true) None [])
  = ["/proj/b/foo.py"; "/proj/a/bar.py"].
Proof.
  split_and!.
  - reflexivity.
  - apply (echoed_paths_are_sorted (host := Demo.host)
             (oracle := Cases.pair_compiling) Cases.unsorted_request).
    discriminate.
  - apply (echoed_paths_are_sorted (host := Demo.host)
             (oracle := Cases.pair_compiling)
             (Demo.options ["/proj/b/foo.py"; "/proj/a/bar.py"]
                (Some true) None [])).
    reflexivity.
Defined.

Lemma execSmartPy_reads_two_fields_witness :
  execSmartPy (host := Demo.host) (oracle := Demo.compiling Demo.warning_run)
    "/proj/contracts/x.py" None (Demo.request (Some false)) Demo.project
  = execSmartPy (host := Demo.host)
      (oracle := Demo.compiling Demo.warning_run)
      "/proj/contracts/x.py" None
      (Demo.options [] (Some true) (Some true) []) Demo.project.
Proof.
  apply (execSmartPy_reads_two_fields (host := Demo.host)
           (oracle := Demo.compiling Demo.warning_run)); reflexivity.
Defined.

Lemma existing_build_directory_not_recreated_witness :
  trace (snd (execSmartPy (host := Demo.host)
                (oracle := Demo.compiling Demo.good_run)
                "/proj/contracts/x.py" None (Demo.request None)
                Demo.project))
  = [ ExistsSync "/proj/build";
      Spawn "docker"
        ["run"; "-v"; "/proj:/proj"; "-w"; "/proj"; "--rm"; "-i";
         "trufflesuite/smartpy-basic:0.0.1"; "compile";
         "/proj/contracts/x.py"; "x()"; "/proj/build"] ].
Proof.
  apply (existing_build_directory_not_recreated (host := Demo.host)
           (oracle := Demo.compiling Demo.good_run)
           "/proj/contracts/x.py" None (Demo.request None) Demo.project).
  reflexivity.
Defined.

Lemma backslash_free_path_passed_unchanged_witness :
  docker_args (host := Demo.host) "/proj/./contracts/x.py" None
    (Demo.request None) !! 9%nat
  = Some "/proj/contracts/x.py".
Proof.
  apply (backslash_free_path_passed_unchanged (host := Demo.host)
           "/proj/./contracts/x.py" None (Demo.request None)).
  reflexivity.
Defined.

Lemma one_spawn_per_source_in_order_witness :
  filter is_spawn
    (trace (snd (compile_loop (host := Demo.host)
                   (oracle := Cases.pair_compiling)
                   ["/proj/a/bar.py"; "/proj/b/foo.py"] None
                   Cases.pair_request [] Cases.pair)))
  = [ Spawn "docker"
        ["run"; "-v"; "/proj:/proj"; "-w"; "/proj"; "--rm"; "-i";
         "trufflesuite/smartpy-basic:0.0.1"; "compile"; "/proj/a/bar.py";
         "bar()"; "/proj/build"];
      Spawn "docker"
        ["run"; "-v"; "/proj:/proj"; "-w"; "/proj"; "--rm"; "-i";
         "trufflesuite/smartpy-basic:0.0.1"; "compile"; "/proj/b/foo.py";
         "foo()"; "/proj/build"] ].
Proof.
  pose (looped := compile_loop (host := Demo.host)
                    (oracle := Cases.pair_compiling)
                    ["/proj/a/bar.py"; "/proj/b/foo.py"] None
                    Cases.pair_request [] Cases.pair).
  apply (one_spawn_per_source_in_order (host := Demo.host)
           (oracle := Cases.pair_compiling)
           ["/proj/a/bar.py"; "/proj/b/foo.py"] None Cases.pair_request []
           Cases.pair
           (match fst looped with inr (inr cs) => cs | _ => [] end)
           (snd looped)).
  vm_compute. reflexivity.
Defined.

Lemma result_keys_are_logical_names_witness :
  ∃ cs, fst (compile_loop (host := Demo.host)
               (oracle := Cases.proto_compiling)
               ["/proj/a/__proto__.py"; "/proj/b/foo.py"] None
               Cases.proto_request [] Cases.proto) = inr (inr cs) ∧
        is_Some (aggregate cs !! "foo") ∧
        ¬ is_Some (aggregate cs !! "__proto__") ∧
        is_Some (prototype (aggregate cs)).
Proof.
  pose (looped := compile_loop (host := Demo.host)
                    (oracle := Cases.proto_compiling)
                    ["/proj/a/__proto__.py"; "/proj/b/foo.py"] None
                    Cases.proto_request [] Cases.proto).
  pose (cs := match fst looped with inr (inr cs) => cs | _ => [] end).
  assert (looped = (inr (inr cs), snd looped)) as Hloop
    by (vm_compute; reflexivity).
  pose proof (λ n, result_keys_are_logical_names (host := Demo.host)
                     (oracle := Cases.proto_compiling) _ _ _ _ _ _ n Hloop)
    as Hkeys.
  exists cs. split_and!.
  - vm_compute. reflexivity.
  - apply (Hkeys "foo"). split; compute_done.
  - intros Hown. apply (Hkeys "__proto__") in Hown as [_ Hne]. by apply Hne.
  - apply (Hkeys "foo"). compute_done.
Defined.

Lemma distinct_names_keep_every_record_witness :
  ∃ cs, fst (compile_loop (host := Demo.host)
               (oracle := Cases.proto_compiling)
               ["/proj/a/__proto__.py"; "/proj/b/foo.py"] None
               Cases.proto_request [] Cases.proto) = inr (inr cs) ∧
        (∀ c, c ∈ cs →
           (Contract.contractName c ≠ "__proto__" →
            aggregate cs !! Contract.contractName c = Some c) ∧
           (Contract.contractName c = "__proto__" →
            prototype (aggregate cs) = Some c)) ∧
        size (aggregate cs) = 1%nat.
Proof.
  pose (looped := compile_loop (host := Demo.host)
                    (oracle := Cases.proto_compiling)
                    ["/proj/a/__proto__.py"; "/proj/b/foo.py"] None
                    Cases.proto_request [] Cases.proto).
  pose (cs := match fst looped with inr (inr cs) => cs | _ => [] end).
  exists cs. split; [vm_compute; reflexivity |].
  apply (distinct_names_keep_every_record (host := Demo.host)
           (oracle := Cases.proto_compiling)
           ["/proj/a/__proto__.py"; "/proj/b/foo.py"] None Cases.proto_request
           Cases.proto cs (snd looped)).
  - vm_compute. reflexivity.
  - compute_done.
Defined.


Lemma unparsable_program_aborts_pass_witness :
  let w1 := snd (forEach (reconcile_entry (host := Demo.host)
                            (Demo.request None))
                   ["contractCode.py"] (None, None) Cases.bad_json) in
  forEach (reconcile_entry (host := Demo.host) (Demo.request None))
    ["contractCode.py"; "contractCode.tz.json"; "contractStorage.tz"]
    (None, None) Cases.bad_json
  = (inl (SyntaxError "  "),
     emit (ReadFile "/proj/build/contractCode.tz.json") w1) ∧
  fs_list (fs w1) "/proj/build"
  = ["contractCode.tz.json"; "contractStorage.tz"].
Proof.
  intros w1. split; [| reflexivity].
  apply (unparsable_program_aborts_pass (host := Demo.host)
           (Demo.request None) ["contractCode.py"] "contractCode.tz.json"
           ["contractStorage.tz"] (None, None) Cases.bad_json (None, None) w1
           "  "); reflexivity.
Defined.


Lemma rejected_invocation_is_not_reconciled_witness :
  ∃ w', compile_loop (host := Demo.host)
          (oracle := Demo.compiling Demo.warning_run)
          ["/proj/contracts/x.py"; "/proj/contracts/y.py"] None
          (Demo.request None) [] Demo.compiled_project
        = (inr (inl ("warning: unused variable" +:+ Str.newline +:+
                     Demo.red "Compilation of /proj/contracts/x.py failed. See above.")),
           w') ∧
        fs w' = fs Demo.compiled_project.
Proof.
  eexists. split.
  - apply (rejected_invocation_is_not_reconciled (host := Demo.host)
             (oracle := Demo.compiling Demo.warning_run)
             "/proj/contracts/x.py" ["/proj/contracts/y.py"] None
             (Demo.request None) [] Demo.compiled_project).
    right. discriminate.
  - vm_compute. reflexivity.
Defined.

Lemma second_pass_finds_nothing_witness :
  ∃ c w',
    collect (host := Demo.host) "/proj/contracts/x.py" "x"
      (Demo.request None) Demo.compiled_project = (inr c, w') ∧
    forEach (reconcile_entry (host := Demo.host) (Demo.request None))
      (fs_list (fs w') "/proj/build") (None, None) w'
    = (inr (None, None), w').
Proof.
  destruct (second_pass_finds_nothing (host := Demo.host)
              (Demo.request None) "/proj/contracts/x.py" "x"
              Demo.compiled_project "import smartpy")
    as (c & w' & Hrun & Hagain);
    [reflexivity | compute_done | compute_done | |].
  - intros n c Hn Hclass Hread.
    assert (n = "contractCode.tz.json") as ->.
    { vm_compute in Hn. set_unfold.
      destruct Hn as [-> | [-> | [-> | [-> | [-> | []]]]]];
        first [done | discriminate Hclass]. }
    vm_compute in Hread. injection Hread as <-. by eexists.
  - exists c, w'. split; [done | apply Hagain].
Defined.

Lemma unreadable_source_throws_witness :
  fst (compile_loop (host := Demo.host)
         (oracle := Demo.compiling Demo.good_run)
         ["/proj/contracts/x.py"] None (Demo.request None) [] Cases.no_source)
  = inl (ENOENT "/proj/contracts/x.py").
Proof.
  rewrite (unreadable_source_throws (host := Demo.host)
             (oracle := Demo.compiling Demo.good_run)
             "/proj/contracts/x.py" [] None (Demo.request None) []
             Cases.no_source); reflexivity.
Defined.

Lemma missing_build_directory_throws_witness :
  fst (compile_loop (host := Demo.host) (oracle := Cases.idle_compiler)
         ["/proj/contracts/x.py"] None (Demo.request None) []
         Demo.fresh_project)
  = inl (ENOENT "/proj/build").
Proof.
  rewrite (missing_build_directory_throws (host := Demo.host)
             (oracle := Cases.idle_compiler)
             "/proj/contracts/x.py" [] None (Demo.request None) []
             Demo.fresh_project "import smartpy");
    first [reflexivity | compute_done].
Defined.

Lemma preflight_runs_first_and_once_witness :
  ∃ evs,
    trace (snd (compileSmartPy (host := Demo.host)
                  (oracle := Cases.pair_compiling) Cases.pair_request
                  Cases.pair))
    = Exec "docker run --rm -i trufflesuite/smartpy-basic:0.0.1 --help"
      :: evs ∧
    Forall (λ e, ¬ is_exec e) evs.
Proof.
  pose (ran := compileSmartPy (host := Demo.host)
                 (oracle := Cases.pair_compiling) Cases.pair_request
                 Cases.pair).
  apply (preflight_runs_first_and_once (host := Demo.host)
           (oracle := Cases.pair_compiling) Cases.pair_request Cases.pair
           (fst ran) (snd ran)).
  - compute_done.
  - apply surjective_pairing.
Defined.

Lemma names_with_py_or_tz_are_removed_witness :
  let w := Demo.world [ ("/proj/build/contractStorage.tz.bak", "Unit");
                        ("/proj/build/notes.txt", "kept") ]
             ["/proj/build"] in
  reconcile_entry (host := Demo.host) (Demo.request None) "notes.txt"
    (None, None) w = (inr (None, None), w) ∧
  ∃ vars' w',
    reconcile_entry (host := Demo.host) (Demo.request None)
      "contractStorage.tz.bak" (None, None) w = (inr vars', w') ∧
    fs_read (fs w') "/proj/build/contractStorage.tz.bak" = None ∧
    fs_read (fs w') "/proj/build/notes.txt" = Some "kept".
Proof.
  intros w. split.
  - apply (names_with_py_or_tz_are_removed (host := Demo.host)
             (Demo.request None) "notes.txt" (None, None) w); reflexivity.
  - destruct (names_with_py_or_tz_are_removed (host := Demo.host)
                (Demo.request None) "contractStorage.tz.bak" (None, None) w)
      as [_ Hremoved].
    destruct (Hremoved "Unit") as (vars' & w' & Hrun & Hgone & Hkept);
      [by right | reflexivity | discriminate |].
    exists vars', w'. split_and!; [done | done |].
    rewrite Hkept; [reflexivity | discriminate].
Defined.

Lemma other_raw_output_deleted_uncaptured_witness :
  reconcile_entry (host := Demo.host) (Demo.request None) "contractCode.tz"
    (None, None) Cases.raw_only
  = (inr (None, None),
     {| fs := fs_remove (fs Cases.raw_only) "/proj/build/contractCode.tz";
        pending := [];
        trace := [Unlink "/proj/build/contractCode.tz"] |}).
Proof.
  apply (other_raw_output_deleted_uncaptured (host := Demo.host)
           (Demo.request None) "contractCode.tz" (None, None) Cases.raw_only
           "parameter unit;"); first [reflexivity | discriminate].
Defined.
